(** * Secure QR decoder (src/lib/secure-qr-decoder.ts): a shallow embedding

    The decoder turns the big decimal integer from an identity QR code into a
    byte array, splits it into 0xFF-delimited text fields, and cuts the
    binary tail (photo, optional email/mobile hashes, 256-byte signature)
    from the end.  This file models, from the TypeScript source:
    - the JS built-ins the code relies on ([String.prototype.trim],
      [Number.parseInt], [Uint8Array.prototype.slice], [BigInt],
      [BigInt.prototype.toString(16)], [String.prototype.split], the [Date]
      constructor and its getters/setters);
    - [convertBase10ToByteArray], [extractDataFields], [parseDateOfBirth]
      and [calculateAge].

    Conventions.
    - A [Uint8Array] is a [list byte].  The JS strings built by
      [bytesToString] only hold code units below 256, so a JS string is a
      Rocq [string] of 8-bit [ascii] characters (a Latin-1 string).
    - A JS [Number] that the code computes with is a [Z]: every value that
      occurs is an integer.  [Number.parseInt] rounds a digit run to the
      nearest Number ([JS.to_number]); digit runs of value 2^1024 or more,
      which it turns into an infinity, are outside the model.
      [NaN] is [None] in [option Z].
    - A [Date] is its time value in milliseconds ([Z]); an invalid date is
      [None].  Local time is taken to be UTC.  The instant [new Date()] is the
      parameter [now] (one clock reading for a whole call), and the
      implementation-defined string form [new Date(string)] is the parameter
      [date_parse]. *)

From Stdlib Require Import ZArith List String Ascii Bool Lia.
From Stdlib Require Import Strings.Byte.
Import ListNotations.

Local Open Scope Z_scope.

(* ------------------------------------------------------------------ *)
(** ** JS built-ins on bytes and strings *)

Module JS.

(** [Uint8Array.prototype.slice(start, end)]: negative indices count from
    the end, both are clamped to [0, length]. *)
Definition rel_index (k len : Z) : Z :=
  if k <? 0 then Z.max (len + k) 0 else Z.min k len.

Definition slice {A} (l : list A) (s e : Z) : list A :=
  let len := Z.of_nat (List.length l) in
  let from := rel_index s len in
  let to := rel_index e len in
  firstn (Z.to_nat (to - from)) (skipn (Z.to_nat from) l).

(** WhiteSpace and LineTerminator code points below 256: TAB, LF, VT, FF,
    CR, SPACE and NO-BREAK SPACE. *)
Definition is_space (c : ascii) : bool :=
  let n := nat_of_ascii c in
  ((9 <=? n) && (n <=? 13))%nat || (n =? 32)%nat || (n =? 160)%nat.

Fixpoint trim_start (s : string) : string :=
  match s with
  | EmptyString => EmptyString
  | String c r => if is_space c then trim_start r else s
  end.

Fixpoint drop_spaces (l : list ascii) : list ascii :=
  match l with
  | [] => []
  | c :: r => if is_space c then drop_spaces r else l
  end.

Definition trim_end (s : string) : string :=
  string_of_list_ascii (rev (drop_spaces (rev (list_ascii_of_string s)))).

(** [String.prototype.trim] *)
Definition trim (s : string) : string := trim_end (trim_start s).

(** Value of a character as a digit of radix up to 36. *)
Definition digit_value (c : ascii) : option Z :=
  let n := Z.of_nat (nat_of_ascii c) in
  if (48 <=? n) && (n <=? 57) then Some (n - 48)
  else if (97 <=? n) && (n <=? 122) then Some (n - 87)
  else if (65 <=? n) && (n <=? 90) then Some (n - 55)
  else None.

(** Longest prefix of radix-[radix] digits. *)
Fixpoint take_digits (radix : Z) (s : string) : list Z :=
  match s with
  | EmptyString => []
  | String c r =>
      match digit_value c with
      | Some d => if d <? radix then d :: take_digits radix r else []
      | None => []
      end
  end.

Definition digits_value (radix : Z) (ds : list Z) : Z :=
  fold_left (fun acc d => acc * radix + d) ds 0.

(** The Number nearest to an integer (the mathematical-to-Number conversion of ECMAScript, round to nearest,
    ties to even, 53-bit significand): exact up to 2^53 in absolute value;
    above that the low bits are rounded off. *)
Definition to_number (z : Z) : Z :=
  let a := Z.abs z in
  if a <=? 2 ^ 53 then z else
  let e := Z.log2 a - 52 in
  let q := a / 2 ^ e in
  let r := a mod 2 ^ e in
  let half := 2 ^ (e - 1) in
  let q' := if half <? r then q + 1
            else if r =? half then (if Z.even q then q else q + 1) else q in
  Z.sgn z * (q' * 2 ^ e).

(** [Number.parseInt(s, radix)] for the radixes the code uses (10 and 16):
    skip leading white space, read an optional sign, for radix 16 drop a
    "0x"/"0X" prefix, then read the longest digit prefix; no digit gives
    [NaN]; the result is the Number nearest to the digits' value. *)
Definition parseInt (s : string) (radix : Z) : option Z :=
  let s1 := trim_start s in
  let '(sign, s2) :=
    match s1 with
    | String c r =>
        if Ascii.eqb c "-" then (-1, r)
        else if Ascii.eqb c "+" then (1, r) else (1, s1)
    | EmptyString => (1, s1)
    end in
  let s3 :=
    if radix =? 16 then
      match s2 with
      | String z (String x r) =>
          if Ascii.eqb z "0" && (Ascii.eqb x "x" || Ascii.eqb x "X")
          then r else s2
      | _ => s2
      end
    else s2 in
  match take_digits radix s3 with
  | [] => None
  | ds => Some (to_number (sign * digits_value radix ds))
  end.

(** [String.prototype.includes] for a one-character argument. *)
Fixpoint includes (c : ascii) (s : string) : bool :=
  match s with
  | EmptyString => false
  | String a r => Ascii.eqb a c || includes c r
  end.

(** [String.prototype.split] on a one-character separator. *)
Fixpoint split (c : ascii) (s : string) : list string :=
  match s with
  | EmptyString => [EmptyString]
  | String a r =>
      if Ascii.eqb a c then EmptyString :: split c r
      else match split c r with
           | h :: t => String a h :: t
           | [] => [String a EmptyString]
           end
  end.

(** Lower-case hexadecimal digit. *)
Definition hex_char (d : Z) : ascii :=
  if d <? 10 then ascii_of_nat (48 + Z.to_nat d)
  else ascii_of_nat (87 + Z.to_nat d).

(** Store of a [Number] into a [Uint8Array] cell (ToUint8: NaN is 0, the
    rest is taken modulo 256). *)
Definition ToUint8 (v : option Z) : byte :=
  match v with
  | None => x00
  | Some z =>
      match Byte.of_N (Z.to_N (z mod 256)) with
      | Some b => b
      | None => x00
      end
  end.

End JS.

(* ------------------------------------------------------------------ *)
(** ** [BigInt] parsing and [toString(16)] *)

Module BigIntJS.

(** Digits of radix [radix] making up the whole string. *)
Fixpoint all_digits (radix : Z) (s : string) : option (list Z) :=
  match s with
  | EmptyString => Some []
  | String c r =>
      match JS.digit_value c with
      | Some d =>
          if d <? radix then option_map (cons d) (all_digits radix r) else None
      | None => None
      end
  end.

Definition digits_exact (radix : Z) (s : string) : option Z :=
  match s with
  | EmptyString => None
  | _ => option_map (JS.digits_value radix) (all_digits radix s)
  end.

Definition prefix_radix (p : ascii) : option Z :=
  if Ascii.eqb p "x" || Ascii.eqb p "X" then Some 16
  else if Ascii.eqb p "o" || Ascii.eqb p "O" then Some 8
  else if Ascii.eqb p "b" || Ascii.eqb p "B" then Some 2
  else None.

(** NonDecimalIntegerLiteral: "0x", "0o" or "0b" and at least one digit;
    [None] when the string does not start with such a prefix. *)
Definition non_decimal (t : string) : option (option Z) :=
  match t with
  | String z (String p r) =>
      if Ascii.eqb z "0" then
        match prefix_radix p with
        | Some radix => Some (digits_exact radix r)
        | None => None
        end
      else None
  | _ => None
  end.

(** SignedInteger: an optional sign and decimal digits. *)
Definition signed_decimal (t : string) : option Z :=
  match t with
  | String c r =>
      if Ascii.eqb c "-" then option_map Z.opp (digits_exact 10 r)
      else if Ascii.eqb c "+" then digits_exact 10 r
      else digits_exact 10 t
  | EmptyString => None
  end.

(** [BigInt(string)] (StringToBigInt): white space around the literal is
    ignored, the empty string is [0n], anything else that is not a
    StrIntegerLiteral throws a SyntaxError ([None]). *)
Definition StringToBigInt (str : string) : option Z :=
  let t := JS.trim str in
  match t with
  | EmptyString => Some 0
  | _ =>
      match non_decimal t with
      | Some res => res
      | None => signed_decimal t
      end
  end.

(** Hexadecimal digits of [n >= 0], most significant first; [fuel] bounds
    the number of digits. *)
Fixpoint hex_digits (fuel : nat) (n : Z) (acc : string) : string :=
  match fuel with
  | O => acc
  | S f =>
      let acc' := String (JS.hex_char (n mod 16)) acc in
      if n <? 16 then acc' else hex_digits f (n / 16) acc'
  end.

Definition hex_fuel (n : Z) : nat := S (Z.to_nat (Z.log2 n)).

(** [BigInt.prototype.toString(16)] *)
Definition toString16 (n : Z) : string :=
  if n <? 0 then String "-" (hex_digits (hex_fuel (- n)) (- n) EmptyString)
  else hex_digits (hex_fuel n) n EmptyString.

End BigIntJS.

(* ------------------------------------------------------------------ *)
(** ** [convertBase10ToByteArray] *)

(** Source lines 287-317: [BigInt] of the string, [toString(16)], a "0"
    in front when the length is odd, then [parseInt] of every two
    characters stored into a [Uint8Array].  A thrown error is [None]. *)
Definition convertBase10ToByteArray (base10String : string) : option (list byte) :=
  match BigIntJS.StringToBigInt base10String with
  | None => None
  | Some bigInt =>
      let hexString0 := BigIntJS.toString16 bigInt in
      let hexString :=
        if Nat.odd (String.length hexString0) then String "0" hexString0
        else hexString0 in
      Some (map (fun i => JS.ToUint8 (JS.parseInt (substring (i * 2) 2 hexString) 16))
                (seq 0 (Nat.div (String.length hexString) 2)))
  end.

(* ------------------------------------------------------------------ *)
(** ** [Date]: time values in milliseconds, proleptic Gregorian calendar *)

Module DateJS.

Definition msPerDay : Z := 86400000.

(** Day number (days since 1970-01-01) of a civil date, month 1..12. *)
Definition days_from_civil (y m d : Z) : Z :=
  let y' := if m <=? 2 then y - 1 else y in
  let era := y' / 400 in
  let yoe := y' - era * 400 in
  let mp := (m + 9) mod 12 in
  let doy := (153 * mp + 2) / 5 + d - 1 in
  let doe := yoe * 365 + yoe / 4 - yoe / 100 + doy in
  era * 146097 + doe - 719468.

(** Civil date (year, month 1..12, day 1..31) of a day number. *)
Definition civil_from_days (z0 : Z) : Z * Z * Z :=
  let z := z0 + 719468 in
  let era := z / 146097 in
  let doe := z - era * 146097 in
  let yoe := (doe - doe / 1460 + doe / 36524 - doe / 146096) / 365 in
  let y := yoe + era * 400 in
  let doy := doe - (365 * yoe + yoe / 4 - yoe / 100) in
  let mp := (5 * doy + 2) / 153 in
  let d := doy - (153 * mp + 2) / 5 + 1 in
  let m := if mp <? 10 then mp + 3 else mp - 9 in
  (if m <=? 2 then y + 1 else y, m, d).

(** MakeDay(year, month, date), month 0-based and possibly out of range. *)
Definition MakeDay (year month date : Z) : Z :=
  let ym := year + month / 12 in
  let mn := month mod 12 in
  days_from_civil ym (mn + 1) 1 + date - 1.

(** TimeClip: time values beyond 8.64e15 ms are [NaN]. *)
Definition TimeClip (t : Z) : option Z :=
  if Z.abs t <=? 8640000000000000 then Some t else None.

(** [new Date(year, monthIndex, day)]; years 0..99 mean 1900..1999. *)
Definition new_Date_ymd (year month day : Z) : option Z :=
  let yr := if (0 <=? year) && (year <=? 99) then 1900 + year else year in
  TimeClip (MakeDay yr month day * msPerDay).

Definition Day (t : Z) : Z := t / msPerDay.
Definition TimeWithinDay (t : Z) : Z := t mod msPerDay.

Definition getFullYear (t : Z) : Z := fst (fst (civil_from_days (Day t))).
(** 0-based month *)
Definition getMonth (t : Z) : Z := snd (fst (civil_from_days (Day t))) - 1.
Definition getDate (t : Z) : Z := snd (civil_from_days (Day t)).

(** [date.setFullYear(y)]: same month, day and time of day in year [y]. *)
Definition setFullYear (t y : Z) : option Z :=
  TimeClip (MakeDay y (getMonth t) (getDate t) * msPerDay + TimeWithinDay t).

End DateJS.

(* ------------------------------------------------------------------ *)
(** ** [parseDateOfBirth] and [calculateAge] *)

Section Dates.

(** [new Date(string)] on a string without "/" or "-": implementation
    defined, so a parameter; [None] is an Invalid Date. *)
Variable date_parse : string -> option Z.
(** The instant read by [new Date()]. *)
Variable now : Z.

(** Source lines 538-595: the date read from the cleaned string, [None]
    when the code returns [null] or the date is invalid ([isNaN(getTime())];
    an invalid date also makes [toISOString] throw, which is caught and gives
    [null] as well). *)
Definition dob_of_string (cleanDob : string) : option Z :=
  if JS.includes "/" cleanDob then
    let parts := JS.split "/" cleanDob in
    if negb (Nat.eqb (List.length parts) 3) then None
    else
      match JS.parseInt (nth 0 parts EmptyString) 10,
            JS.parseInt (nth 1 parts EmptyString) 10,
            JS.parseInt (nth 2 parts EmptyString) 10 with
      | Some day, Some month, Some year => DateJS.new_Date_ymd year (month - 1) day
      | _, _, _ => None
      end
  else if JS.includes "-" cleanDob then
    let parts := JS.split "-" cleanDob in
    if negb (Nat.eqb (List.length parts) 3) then None
    else
      let '(d, m, y) :=
        if Nat.eqb (String.length (nth 0 parts EmptyString)) 4 then
          (JS.parseInt (nth 2 parts EmptyString) 10,
           JS.parseInt (nth 1 parts EmptyString) 10,
           JS.parseInt (nth 0 parts EmptyString) 10)
        else
          (JS.parseInt (nth 0 parts EmptyString) 10,
           JS.parseInt (nth 1 parts EmptyString) 10,
           JS.parseInt (nth 2 parts EmptyString) 10) in
      match d, m, y with
      | Some day, Some month, Some year => DateJS.new_Date_ymd year (month - 1) day
      | _, _, _ => None
      end
  else date_parse cleanDob.

(** [minDate]: [new Date()] with [setFullYear(today.getFullYear() - 120)]. *)
Definition minDate : option Z :=
  DateJS.setFullYear now (DateJS.getFullYear now - 120).

(** Source lines 528-618.  A comparison with an invalid [minDate] is
    false. *)
Definition parseDateOfBirth (dobString : string) : option Z :=
  let cleanDob := JS.trim dobString in
  match dob_of_string cleanDob with
  | None => None
  | Some dob =>
      if now <? dob then None
      else match minDate with
           | Some m => if dob <? m then None else Some dob
           | None => Some dob
           end
  end.

(** Source lines 510-521, with [today] the instant [now]. *)
Definition calculateAge (dob : Z) : Z :=
  let today := now in
  let age := DateJS.getFullYear today - DateJS.getFullYear dob in
  let monthDiff := DateJS.getMonth today - DateJS.getMonth dob in
  if (monthDiff <? 0) || ((monthDiff =? 0) && (DateJS.getDate today <? DateJS.getDate dob))
  then age - 1 else age.

End Dates.

(* ------------------------------------------------------------------ *)
(** ** [extractDataFields] *)

Definition DELIMITER : byte := xff.
Definition SIGNATURE_SIZE : Z := 256.

(** [bytesToString]: [String.fromCharCode] of every byte. *)
Fixpoint bytesToString (bytes : list byte) : string :=
  match bytes with
  | [] => EmptyString
  | b :: t => String (ascii_of_byte b) (bytesToString t)
  end.

(** [byte.toString(16).padStart(2, "0")] *)
Definition byteToHex (b : byte) : string :=
  let n := Z.of_N (Byte.to_N b) in
  String (JS.hex_char (n / 16)) (String (JS.hex_char (n mod 16)) EmptyString).

(** [bytesToHexString] *)
Fixpoint bytesToHexString (bytes : list byte) : string :=
  match bytes with
  | [] => EmptyString
  | b :: t => byteToHex b ++ bytesToHexString t
  end.

(** Inner loop of lines 357-359: the bytes up to the next delimiter, and
    what follows the delimiter ([None] when the array ends first). *)
Fixpoint split_delim (l : list byte) : list byte * option (list byte) :=
  match l with
  | [] => ([], None)
  | b :: t =>
      if Byte.eqb b DELIMITER then ([], Some t)
      else let '(f, r) := split_delim t in (b :: f, r)
  end.

(** First pass, lines 352-373, on the unread suffix of the array: the loop
    runs while [index < byteArray.length] (a non-empty suffix) and breaks
    once 16 values are read ([budget] counts the values still allowed). *)
Fixpoint read_fields (budget : nat) (l : list byte) : list string :=
  match budget with
  | O => []
  | S budget' =>
      match l with
      | [] => []
      | _ =>
          let '(fieldBytes, rest) := split_delim l in
          bytesToString fieldBytes ::
            match rest with
            | None => []
            | Some l' => read_fields budget' l'
            end
      end
  end.

Definition readFieldValues (byteArray : list byte) : list string :=
  read_fields 16 byteArray.

(** [fieldValues[i] = v] for an index inside the array. *)
Fixpoint replace_nth {A} (i : nat) (v : A) (l : list A) : list A :=
  match l, i with
  | [], _ => []
  | _ :: t, O => v :: t
  | h :: t, S i' => h :: replace_nth i' v t
  end.

(** [for (let i = start; ...; i++) fieldValues[i] = fieldValues[i + 1]],
    [k] iterations. *)
Fixpoint shift_loop (k i : nat) (fv : list string) : list string :=
  match k with
  | O => fv
  | S k' => shift_loop k' (S i) (replace_nth i (nth (S i) fv EmptyString) fv)
  end.

(** Lines 392-394: [i] from 1 while [i < fieldValues.length - 1]. *)
Definition shift_fields (fv : list string) : list string :=
  shift_loop (List.length fv - 2) 1 fv.

(** Line 384: [isNaN(parsedFirstValue) && secondFieldValue === "3"]. *)
Definition fieldShift_of (fieldValues : list string) : bool :=
  match fieldValues with
  | f0 :: f1 :: _ =>
      match JS.parseInt (JS.trim f0) 10 with
      | None => String.eqb f1 "3"
      | Some _ => false
      end
  | _ => false
  end.

(** The result object.  A property left [undefined] is [None]; the hashes
    are the hex strings the code stores. *)
Record IdentityRecord := mkIdentityRecord {
  emailMobilePresent : Z;
  referenceId : option string;
  name : option string;
  dateOfBirth : option string;
  gender : option string;
  careOf : option string;
  district : option string;
  landmark : option string;
  house : option string;
  location : option string;
  pinCode : option string;
  postOffice : option string;
  state : option string;
  street : option string;
  subDistrict : option string;
  vtc : option string;
  mobileHash : option string;
  emailHash : option string;
  photo : list byte;
  signature : list byte;
  age : option Z;
  isAdult : option bool
}.

Section Parser.

Variable date_parse : string -> option Z.
Variable now : Z.

(** Lines 441-480: hashes and photo from the indicator. *)
Definition binary_tail (byteArray : list byte) (emp : Z) (fieldShift : bool)
    (currentIndex : Z) : option string * option string * list byte :=
  let dataLength := Z.of_nat (List.length byteArray) in
  let signatureStartIndex := dataLength - SIGNATURE_SIZE in
  if (emp =? 3) || fieldShift then
    let mobileStartIndex := signatureStartIndex - 32 in
    let emailStartIndex := mobileStartIndex - 32 in
    (Some (bytesToHexString (JS.slice byteArray mobileStartIndex (mobileStartIndex + 32))),
     Some (bytesToHexString (JS.slice byteArray emailStartIndex (emailStartIndex + 32))),
     JS.slice byteArray currentIndex emailStartIndex)
  else if emp =? 2 then
    let mobileStartIndex := signatureStartIndex - 32 in
    (Some (bytesToHexString (JS.slice byteArray mobileStartIndex (mobileStartIndex + 32))),
     None,
     JS.slice byteArray currentIndex mobileStartIndex)
  else if emp =? 1 then
    let emailStartIndex := signatureStartIndex - 32 in
    (None,
     Some (bytesToHexString (JS.slice byteArray emailStartIndex (emailStartIndex + 32))),
     JS.slice byteArray currentIndex emailStartIndex)
  else
    (None, None, JS.slice byteArray currentIndex signatureStartIndex).

(** Lines 489-496: [age] and [isAdult] when [dateOfBirth] is a non-empty
    string that parses. *)
Definition age_fields (dob : option string) : option Z * option bool :=
  match dob with
  | Some s =>
      if String.eqb s EmptyString then (None, None)
      else match parseDateOfBirth date_parse now s with
           | Some d => let a := calculateAge now d in (Some a, Some (18 <=? a))
           | None => (None, None)
           end
  | None => (None, None)
  end.

(** Source lines 341-503.  [None] is the thrown error: with no value read,
    [fieldValues[0].trim()] throws a TypeError. *)
Definition extractDataFields (byteArray : list byte) : option IdentityRecord :=
  let fieldValues0 := readFieldValues byteArray in
  match fieldValues0 with
  | [] => None
  | firstFieldValue :: _ =>
      let parsedFirstValue := JS.parseInt (JS.trim firstFieldValue) 10 in
      let fieldShift := fieldShift_of fieldValues0 in
      let emp :=
        if fieldShift then 3
        else match parsedFirstValue with Some v => v | None => 0 end in
      let fieldValues :=
        if fieldShift then shift_fields fieldValues0 else fieldValues0 in
      let currentIndex :=
        fold_left (fun acc v => acc + Z.of_nat (String.length v) + 1) fieldValues 0 in
      let '(mh, eh, ph) := binary_tail byteArray emp fieldShift currentIndex in
      let dataLength := Z.of_nat (List.length byteArray) in
      let sig := JS.slice byteArray (dataLength - SIGNATURE_SIZE) dataLength in
      let dob := nth_error fieldValues 3 in
      let '(ag, ad) := age_fields dob in
      Some (mkIdentityRecord emp
              (nth_error fieldValues 1) (nth_error fieldValues 2) dob
              (nth_error fieldValues 4) (nth_error fieldValues 5)
              (nth_error fieldValues 6) (nth_error fieldValues 7)
              (nth_error fieldValues 8) (nth_error fieldValues 9)
              (nth_error fieldValues 10) (nth_error fieldValues 11)
              (nth_error fieldValues 12) (nth_error fieldValues 13)
              (nth_error fieldValues 14)
              (if Nat.ltb 15 (List.length fieldValues) then nth_error fieldValues 15 else None)
              mh eh ph sig ag ad)
  end.

End Parser.

(** Named text field at position [k] of [fieldValues] (lines 403-422). *)
Definition field_at (r : IdentityRecord) (k : nat) : option string :=
  match k with
  | 1 => referenceId r | 2 => name r | 3 => dateOfBirth r | 4 => gender r
  | 5 => careOf r | 6 => district r | 7 => landmark r | 8 => house r
  | 9 => location r | 10 => pinCode r | 11 => postOffice r | 12 => state r
  | 13 => street r | 14 => subDistrict r | 15 => vtc r
  | _ => None
  end%nat.

(* ------------------------------------------------------------------ *)
(** ** Vocabulary of the statements *)

(** Parts of [extractDataFields] named for the statements: the indicator,
    the field values after the correction, and the end of the text fields. *)
Definition indicator_of (fieldValues0 : list string) : Z :=
  if fieldShift_of fieldValues0 then 3
  else match JS.parseInt (JS.trim (hd EmptyString fieldValues0)) 10 with
       | Some v => v
       | None => 0
       end.

Definition corrected_fields (fieldValues0 : list string) : list string :=
  if fieldShift_of fieldValues0 then shift_fields fieldValues0 else fieldValues0.

Definition text_end (fieldValues : list string) : Z :=
  fold_left (fun acc v => acc + Z.of_nat (String.length v) + 1) fieldValues 0.

(** A payload laid out as [token0 || 0xFF || ... || tokenN || 0xFF || tail]. *)
Definition layout (tokens : list (list byte)) (tail : list byte) : list byte :=
  List.concat (map (fun t => t ++ [DELIMITER]) tokens) ++ tail.

(** The layout of the spec: no delimiter after the last token. *)
Definition spec_layout (tokens : list (list byte)) (tail : list byte) : list byte :=
  List.concat (map (fun t => t ++ [DELIMITER]) (removelast tokens))
    ++ last tokens [] ++ tail.

Definition no_delim (l : list byte) : Prop :=
  forallb (fun b => negb (Byte.eqb b DELIMITER)) l = true.

(** Number of 32-byte hashes the parser cuts for an indicator, without the
    correction. *)
Definition hash_count (emp : Z) : nat :=
  if emp =? 3 then 2 else if emp =? 2 then 1 else if emp =? 1 then 1 else 0.

(** The correction as the spec words it: [token[i] := token[i+1]] for [i]
    in [1, n-2], the other positions unchanged. *)
Definition anomaly_shift_spec (tokens : list string) : list string :=
  let n := List.length tokens in
  map (fun i => if (1 <=? i)%nat && (i <=? n - 2)%nat
                then nth (S i) tokens EmptyString
                else nth i tokens EmptyString)
      (seq 0 n).

(** The trigger as the spec words it: [token0] does not parse as an integer
    and [token1] is "3". *)
Definition anomaly_trigger (tokens : list string) : bool :=
  match tokens with
  | t0 :: t1 :: _ =>
      match JS.parseInt (JS.trim t0) 10 with None => true | Some _ => false end
      && String.eqb t1 "3"
  | _ => false
  end.

Definition is_dec_digit (c : ascii) : bool :=
  ((48 <=? nat_of_ascii c) && (nat_of_ascii c <=? 57))%nat.

Definition decimal_value (s : string) : Z :=
  fold_left (fun acc c => acc * 10 + (Z.of_nat (nat_of_ascii c) - 48))
            (list_ascii_of_string s) 0.

(** Big-endian value of a byte sequence. *)
Definition be_value (bs : list byte) : Z :=
  JS.digits_value 256 (map (fun b => Z.of_N (Byte.to_N b)) bs).

(** "today's (month, day) precedes dob's (month, day)" *)
Definition md_precedes (m1 d1 m2 d2 : Z) : bool :=
  (m1 <? m2) || ((m1 =? m2) && (d1 <? d2)).

Definition no_date : string -> option Z := fun _ => None.

(** Start of the signature: [dataLength - 256] resolved by [slice], which
    counts a negative index from the end. *)
Definition signature_start (len : Z) : Z :=
  if len <? 256 then Z.max (2 * len - 256) 0 else len - 256.

(** A run of hexadecimal digits as the string [toString(16)] writes. *)
Definition hexs (l : list Z) : string := string_of_list_ascii (map JS.hex_char l).

(** The digits [hex_digits] writes, as numbers. *)
Fixpoint hexl (fuel : nat) (n : Z) (acc : list Z) : list Z :=
  match fuel with
  | O => acc
  | S f => if n <? 16 then n mod 16 :: acc else hexl f (n / 16) (n mod 16 :: acc)
  end.

(** The bytes read from an even run of hexadecimal digits, two at a time. *)
Fixpoint byte_pairs (pd : list Z) : list byte :=
  match pd with
  | a :: b :: r => JS.ToUint8 (Some (a * 16 + b)) :: byte_pairs r
  | _ => []
  end.

Definition hex_digit (d : Z) : Prop := 0 <= d < 16.

(* ------------------------------------------------------------------ *)
(** ** [decompressData] and [processSecureQRData] *)

Section Process.

(** [pako.inflate]: an external library, so a parameter; [None] is a
    thrown error. *)
Variable inflate : list byte -> option (list byte).
Variable date_parse : string -> option Z.
Variable now : Z.

(** Source lines 324-335: the inflated bytes, or the input itself when
    inflating throws. *)
Definition decompressData (compressedData : list byte) : list byte :=
  match inflate compressedData with
  | Some out => out
  | None => compressedData
  end.

(** Source lines 262-280: convert, decompress, extract; an error from any
    step is rethrown ([None]). *)
Definition processSecureQRData (rawData : string) : option IdentityRecord :=
  match convertBase10ToByteArray rawData with
  | None => None
  | Some byteArray => extractDataFields date_parse now (decompressData byteArray)
  end.

End Process.

(* ------------------------------------------------------------------ *)
(** ** The image filters *)

(** An [ImageData.data] array is a [Uint8ClampedArray]: its elements are
    integers 0..255, a read past the end is [undefined] ([None]), a write
    past the end is ignored ([replace_nth]), and a stored Number goes through
    ToUint8Clamp. *)
Module Clamped.

(** Arithmetic on Numbers read from the array: [undefined] makes [NaN]. *)
Definition add (a b : option Z) : option Z :=
  match a, b with Some x, Some y => Some (x + y) | _, _ => None end.
Definition sub (a b : option Z) : option Z :=
  match a, b with Some x, Some y => Some (x - y) | _, _ => None end.

(** ToUint8Clamp of the Number [num / den] ([den > 0]); [None] is [NaN].
    Values are clamped to [0, 255] and rounded half to even. *)
Definition ToUint8Clamp (v : option (Z * Z)) : Z :=
  match v with
  | None => 0
  | Some (num, den) =>
      if num <=? 0 then 0
      else if 255 * den <=? num then 255
      else
        let f := num / den in
        let r2 := 2 * (num - f * den) in
        if den <? r2 then f + 1
        else if r2 <? den then f
        else if Z.even f then f else f + 1
  end.

(** [for (let i = 0; i < data.length; i += 4) step(i)] *)
Definition pixel_loop (step : nat -> list Z -> list Z) (data : list Z) : list Z :=
  fold_left (fun d i => step i d)
    (map (fun k => 4 * k)%nat (seq 0 ((List.length data + 3) / 4))) data.

End Clamped.

(** Lines 173-177: [data[i + j] = data[i + j] < 128 ? 0 : 255] for
    [j = 0, 1, 2] ([undefined < 128] is false). *)
Definition highContrast_step (i : nat) (data : list Z) : list Z :=
  fold_left (fun d j =>
      replace_nth (i + j)
        (match nth_error d (i + j) with
         | Some v => if v <? 128 then 0 else 255
         | None => 255
         end) d)
    (seq 0 3) data.

(** [applyHighContrast] on the pixel data (lines 169-181). *)
Definition applyHighContrast (data : list Z) : list Z :=
  Clamped.pixel_loop highContrast_step data.

(** Lines 187-190: [avg = (data[i] + data[i+1] + data[i+2]) / 3] stored
    into [data[i+2]], [data[i+1]] and [data[i]]. *)
Definition grayscale_step (i : nat) (data : list Z) : list Z :=
  let avg := Clamped.add (Clamped.add (nth_error data i) (nth_error data (i + 1)))
                         (nth_error data (i + 2)) in
  let v := Clamped.ToUint8Clamp (option_map (fun s => (s, 3)) avg) in
  replace_nth i v (replace_nth (i + 1) v (replace_nth (i + 2) v data)).

(** [applyGrayscale] on the pixel data (lines 183-193). *)
Definition applyGrayscale (data : list Z) : list Z :=
  Clamped.pixel_loop grayscale_step data.

(** Lines 213-216 with the threshold [num / den] ([None] is [NaN]):
    [value = data[i] < threshold ? 0 : 255] stored into the three
    channels. *)
Definition binarize_step (threshold : option (Z * Z)) (i : nat) (data : list Z) : list Z :=
  let value :=
    match nth_error data i, threshold with
    | Some v, Some (num, den) => if v * den <? num then 0 else 255
    | _, _ => 255
    end in
  replace_nth i value (replace_nth (i + 1) value (replace_nth (i + 2) value data)).

(** [applyBinarize] on the pixel data (lines 195-219): the grayscale pass,
    [sum] of the red channel, [threshold = sum / (data.length / 4)], that
    is [4 * sum / data.length], then the threshold pass. *)
Definition applyBinarize (data : list Z) : list Z :=
  let d1 := Clamped.pixel_loop grayscale_step data in
  let len := Z.of_nat (List.length d1) in
  let sum := fold_left (fun s i => Clamped.add s (nth_error d1 i))
               (map (fun k => 4 * k)%nat (seq 0 ((List.length d1 + 3) / 4))) (Some 0) in
  let threshold :=
    match sum with
    | Some s => if len =? 0 then None else Some (4 * s, len)
    | None => None
    end in
  Clamped.pixel_loop (binarize_step threshold) d1.

(** Lines 236-245: [Math.min(255, Math.max(0, 5 * o[i] - o[i - 4w] - o[i - 4]
    - o[i + 4] - o[i + 4w]))] on the copy [o]; [Math.max] and [Math.min] of
    [NaN] are [NaN].  The loop has [y >= 1], so [i - 4w] is no negative
    index. *)
Definition sharpen_value (original : list Z) (width i : nat) : Z :=
  let raw :=
    Clamped.sub (Clamped.sub (Clamped.sub (Clamped.sub
      (option_map (Z.mul 5) (nth_error original i))
      (nth_error original (i - width * 4)))
      (nth_error original (i - 4)))
      (nth_error original (i + 4)))
      (nth_error original (i + width * 4)) in
  Clamped.ToUint8Clamp (option_map (fun v => (Z.min 255 (Z.max 0 v), 1)) raw).

(** [applySharpen] (lines 221-250) on a canvas of [width] by [height]
    pixels: [y] over [1 .. height - 2], [x] over [1 .. width - 2], [c] over
    the three colour channels. *)
Definition applySharpen (width height : nat) (data : list Z) : list Z :=
  let original := data in
  fold_left (fun d y =>
    fold_left (fun d x =>
      let idx := ((y * width + x) * 4)%nat in
      fold_left (fun d c =>
          let i := (idx + c)%nat in
          replace_nth i (sharpen_value original width i) d)
        (seq 0 3) d)
      (seq 1 (width - 2)) d)
    (seq 1 (height - 2)) data.

(** Pixel data in groups of four (the last group may be shorter). *)
Fixpoint chunks4 (l : list Z) : list (list Z) :=
  match l with
  | a :: b :: c :: d :: r => [a; b; c; d] :: chunks4 r
  | [] => []
  | _ => [l]
  end.

(** The rounded mean [(r + g + b + 1) / 3] of a pixel's colour channels
    (0 for a group of fewer than three values). *)
Definition pixel_gray (w : list Z) : Z :=
  match w with r :: g :: b :: _ => (r + g + b + 1) / 3 | _ => 0 end.

(** Stores [d[i] = f(i)] for the indices [l] in turn. *)
Definition writes (f : nat -> Z) (l : list nat) (d : list Z) : list Z :=
  fold_left (fun d i => replace_nth i (f i) d) l d.

(** The indices [applySharpen] writes, in loop order. *)
Definition sharpen_indices (width height : nat) : list nat :=
  flat_map (fun y => flat_map (fun x => map (fun c => ((y * width + x) * 4 + c)%nat) (seq 0 3))
                      (seq 1 (width - 2)))
           (seq 1 (height - 2)).

(** The two hexadecimal digits of a byte. *)
Definition byte_digits (b : byte) : list Z :=
  [Z.of_N (Byte.to_N b) / 16; Z.of_N (Byte.to_N b) mod 16].

(** [String.prototype.padStart(targetLength, padString)] with a
    one-character [padString]. *)
Definition padStart (s : string) (targetLength : nat) (padString : ascii) : string :=
  if (String.length s <? targetLength)%nat
  then (string_of_list_ascii (repeat padString (targetLength - String.length s)) ++ s)%string
  else s.

(** The steps of [DateJS.civil_from_days] inside one 400-year era, from the
    day of the era [doe]. *)
Definition yoe_of (doe : Z) : Z := (doe - doe / 1460 + doe / 36524 - doe / 146096) / 365.
Definition doy_of (doe : Z) : Z := doe - (365 * yoe_of doe + yoe_of doe / 4 - yoe_of doe / 100).
Definition mp_of (doy : Z) : Z := (5 * doy + 2) / 153.
Definition d_of (doy : Z) : Z := doy - (153 * mp_of doy + 2) / 5 + 1.
Definition m_of (mp : Z) : Z := if mp <? 10 then mp + 3 else mp - 9.
Definition Y0_of (doe : Z) : Z :=
  if m_of (mp_of (doy_of doe)) <=? 2 then yoe_of doe + 1 else yoe_of doe.

(** Lexicographic order of (year, month, day). *)
Definition lex3 (a b : Z * Z * Z) : Prop :=
  let '(y1, m1, d1) := a in let '(y2, m2, d2) := b in
  y1 < y2 \/ (y1 = y2 /\ (m1 < m2 \/ (m1 = m2 /\ d1 <= d2))).

(* ------------------------------------------------------------------ *)
(** ** Examples *)

Example convert_255 : convertBase10ToByteArray "255" = Some [xff].
Proof. reflexivity. Qed.
Example convert_256 : convertBase10ToByteArray "256" = Some [x01; x00].
Proof. reflexivity. Qed.
Example convert_neg : convertBase10ToByteArray "-255" = Some [x00; xff].
Proof. reflexivity. Qed.
Example convert_empty : convertBase10ToByteArray " " = Some [x00].
Proof. reflexivity. Qed.
Example convert_bad : convertBase10ToByteArray "12a" = None.
Proof. reflexivity. Qed.
Example date_2024_06_14 :
  option_map (fun t => (DateJS.getFullYear t, DateJS.getMonth t, DateJS.getDate t))
    (DateJS.new_Date_ymd 2024 5 14) = Some (2024, 5, 14).
Proof. reflexivity. Qed.
Example date_2000_06_15 :
  option_map (fun t => (DateJS.getFullYear t, DateJS.getMonth t, DateJS.getDate t))
    (DateJS.new_Date_ymd 2000 5 15) = Some (2000, 5, 15).
Proof. reflexivity. Qed.
Example date_epoch : DateJS.new_Date_ymd 1970 0 1 = Some 0.
Proof. reflexivity. Qed.
Example date_overflow :
  option_map (fun t => (DateJS.getFullYear t, DateJS.getMonth t, DateJS.getDate t))
    (DateJS.new_Date_ymd 2023 1 29) = Some (2023, 2, 1).
Proof. reflexivity. Qed.
Example date_two_digit :
  option_map DateJS.getFullYear (DateJS.new_Date_ymd 85 0 1) = Some 1985.
Proof. reflexivity. Qed.

(* ------------------------------------------------------------------ *)
(** ** General facts about the parser *)

Ltac destruct_tail :=
  lazymatch goal with
  | |- context [binary_tail ?a ?b ?c ?d] => destruct (binary_tail a b c d) as [[? ?] ?]
  end;
  lazymatch goal with
  | |- context [age_fields ?a ?b ?c] => destruct (age_fields a b c)
  end.

Lemma read_fields_nil n : read_fields n [] = [].
Proof. destruct n; reflexivity. Qed.

Lemma readFieldValues_nil_iff buf : readFieldValues buf = [] <-> buf = [].
Proof.
  split; [|intros ->; reflexivity].
  unfold readFieldValues; destruct buf as [|b t]; intros H; [reflexivity|].
  revert H; cbn -[split_delim]; destruct (split_delim (b :: t)); intros H; discriminate H.
Qed.

Lemma extract_none_iff dp now buf :
  extractDataFields dp now buf = None <-> buf = [].
Proof.
  rewrite <- readFieldValues_nil_iff. unfold extractDataFields.
  destruct (readFieldValues buf); [tauto|].
  destruct_tail. split; discriminate.
Qed.

Lemma nth_error_15 (fv : list string) :
  (if Nat.ltb 15 (List.length fv) then nth_error fv 15 else None) = nth_error fv 15.
Proof.
  destruct (Nat.ltb_spec 15 (List.length fv)); [reflexivity|].
  symmetry; apply nth_error_None; lia.
Qed.

(** What [extractDataFields] returns, field by field. *)
Lemma extract_spec dp now buf r :
  extractDataFields dp now buf = Some r ->
  let fv0 := readFieldValues buf in
  let L := Z.of_nat (List.length buf) in
  fv0 <> [] /\
  emailMobilePresent r = indicator_of fv0 /\
  (forall i, (1 <= i <= 15)%nat -> field_at r i = nth_error (corrected_fields fv0) i) /\
  (mobileHash r, emailHash r, photo r) =
    binary_tail buf (indicator_of fv0) (fieldShift_of fv0)
      (text_end (corrected_fields fv0)) /\
  signature r = JS.slice buf (L - SIGNATURE_SIZE) L.
Proof.
  unfold extractDataFields, indicator_of, corrected_fields, text_end.
  destruct (readFieldValues buf) as [|f0 fr] eqn:Efv; [discriminate|].
  lazymatch goal with
  | |- context [binary_tail ?a ?b ?c ?d] =>
      destruct (binary_tail a b c d) as [[mh eh] ph] eqn:Eb
  end.
  lazymatch goal with
  | |- context [age_fields ?a ?b ?c] => destruct (age_fields a b c) as [ag ad]
  end.
  intros H; injection H as <-. cbn [hd].
  split; [discriminate|]. split; [reflexivity|]. split; [|split].
  - intros i Hi.
    do 15 (destruct i as [|i]; [try lia; reflexivity|]).
    destruct i as [|i]; [exact (nth_error_15 _)|lia].
  - cbn [mobileHash emailHash photo]. symmetry; exact Eb.
  - reflexivity.
Qed.

(** *** The tokenizer on delimited layouts *)

Lemma split_delim_token t rest :
  no_delim t -> split_delim (t ++ DELIMITER :: rest) = (t, Some rest).
Proof.
  induction t as [|b t IH]; intros Hn; simpl.
  - reflexivity.
  - unfold no_delim in Hn. simpl in Hn. apply andb_prop in Hn as [Hb Hn].
    destruct (Byte.eqb b DELIMITER); [discriminate|].
    rewrite IH; [reflexivity|exact Hn].
Qed.

Lemma split_delim_last t : no_delim t -> split_delim t = (t, None).
Proof.
  induction t as [|b t IH]; intros Hn; simpl.
  - reflexivity.
  - unfold no_delim in Hn. simpl in Hn. apply andb_prop in Hn as [Hb Hn].
    destruct (Byte.eqb b DELIMITER); [discriminate|].
    rewrite IH; [reflexivity|exact Hn].
Qed.

Lemma read_fields_cons n l :
  l <> [] ->
  read_fields (S n) l =
    let '(f, r) := split_delim l in
    bytesToString f :: match r with None => [] | Some l' => read_fields n l' end.
Proof. destruct l; [congruence|reflexivity]. Qed.

Lemma layout_cons t toks tail :
  layout (t :: toks) tail = t ++ DELIMITER :: layout toks tail.
Proof. unfold layout. simpl. rewrite <- !app_assoc. reflexivity. Qed.

Lemma read_fields_layout toks tail n :
  Forall no_delim toks -> (List.length toks <= n)%nat ->
  read_fields n (layout toks tail) =
    map bytesToString toks ++ read_fields (n - List.length toks) tail.
Proof.
  revert n. induction toks as [|t toks IH]; intros n Hf Hn.
  - simpl. rewrite Nat.sub_0_r. reflexivity.
  - inversion Hf as [|? ? Ht Hf']; subst.
    destruct n as [|n]; [simpl in Hn; lia|].
    rewrite layout_cons, read_fields_cons by (destruct t; discriminate).
    rewrite split_delim_token by exact Ht.
    rewrite IH by (simpl in Hn; auto with arith).
    reflexivity.
Qed.

Lemma read_fields_tail n tail :
  tail <> [] -> no_delim tail -> (1 <= n)%nat -> read_fields n tail = [bytesToString tail].
Proof.
  intros Hne Hn Hle. destruct n as [|n]; [lia|].
  rewrite read_fields_cons by exact Hne. rewrite split_delim_last by exact Hn.
  reflexivity.
Qed.

Lemma bytesToString_length bs : String.length (bytesToString bs) = List.length bs.
Proof. induction bs; simpl; congruence. Qed.

Lemma fieldShift_of_trigger fv : fieldShift_of fv = anomaly_trigger fv.
Proof.
  destruct fv as [|f0 [|f1 fv]]; try reflexivity.
  simpl. destruct (JS.parseInt (JS.trim f0) 10); reflexivity.
Qed.

(** *** Slices *)

Lemma slice_range {A} (l : list A) s e :
  0 <= s <= e -> e <= Z.of_nat (List.length l) ->
  JS.slice l s e = firstn (Z.to_nat (e - s)) (skipn (Z.to_nat s) l).
Proof.
  intros Hs He. unfold JS.slice, JS.rel_index.
  destruct (Z.ltb_spec s 0); [lia|]. destruct (Z.ltb_spec e 0); [lia|].
  rewrite Z.min_l by lia. rewrite Z.min_l by lia. reflexivity.
Qed.

Lemma slice_app_middle {A} (x y z : list A) :
  let L := Z.of_nat (List.length (x ++ y ++ z)) in
  JS.slice (x ++ y ++ z) (Z.of_nat (List.length x)) (Z.of_nat (List.length (x ++ y))) = y.
Proof.
  cbv zeta. rewrite slice_range by (rewrite !length_app; lia).
  rewrite length_app, Nat2Z.inj_add, Z.add_simpl_l, !Nat2Z.id.
  rewrite skipn_app, skipn_all, Nat.sub_diag. simpl.
  rewrite firstn_app, firstn_all, Nat.sub_diag. simpl. apply app_nil_r.
Qed.

Lemma signature_slice_last (x sig : list byte) :
  List.length sig = 256%nat ->
  let L := Z.of_nat (List.length (x ++ sig)) in
  JS.slice (x ++ sig) (L - SIGNATURE_SIZE) L = sig.
Proof.
  intros Hs. cbv zeta. unfold SIGNATURE_SIZE.
  assert (HL : List.length (x ++ sig) = (List.length x + 256)%nat)
    by (rewrite length_app, Hs; reflexivity).
  rewrite slice_range by (rewrite HL; lia). rewrite HL.
  replace (Z.to_nat (Z.of_nat (List.length x + 256) - (Z.of_nat (List.length x + 256) - 256)))
    with 256%nat by lia.
  rewrite Nat2Z.inj_add, Z.add_simpl_r, Nat2Z.id.
  rewrite skipn_app, skipn_all, Nat.sub_diag, app_nil_l.
  rewrite <- Hs at 1. apply firstn_all.
Qed.

Lemma layout_not_nil toks tail : toks <> [] -> layout toks tail <> [].
Proof.
  destruct toks as [|t toks]; [congruence|]. intros _.
  rewrite layout_cons. destruct t; discriminate.
Qed.

Lemma readFieldValues_layout toks tail :
  Forall no_delim toks -> (List.length toks <= 16)%nat ->
  tail <> [] -> no_delim tail ->
  readFieldValues (layout toks tail) =
    map bytesToString toks ++
      (if (List.length toks <? 16)%nat then [bytesToString tail] else []).
Proof.
  intros Hf Hlen Hne Hnt. unfold readFieldValues.
  rewrite read_fields_layout by assumption.
  destruct (Nat.ltb_spec (List.length toks) 16).
  - rewrite read_fields_tail by (assumption || lia). reflexivity.
  - replace (16 - List.length toks)%nat with 0%nat by lia. reflexivity.
Qed.

Lemma nth_error_map_app (toks : list (list byte)) extra i :
  (i < List.length toks)%nat ->
  nth_error (map bytesToString toks ++ extra) i = Some (bytesToString (nth i toks [])).
Proof.
  intros Hi. rewrite nth_error_app1 by (rewrite length_map; exact Hi).
  rewrite nth_error_map, (nth_error_nth' toks []) by exact Hi. reflexivity.
Qed.

(** ** C1: tokens and signature of a built payload *)

(** C1, counterexample: in the spec's layout there is no delimiter between
    the last token and the photo, so the tokenizer reads the last token
    together with the whole binary tail: for tokens "0" and "a" followed by
    a 256-byte signature, [referenceId] is "a" followed by the 256
    signature bytes, not "a". *)
Lemma C1_spec_layout_merges_last_token :
  exists r,
    extractDataFields no_date 0 (spec_layout [[x30]; [x61]] (repeat x00 256)) = Some r /\
    referenceId r = Some (bytesToString (x61 :: repeat x00 256)) /\
    referenceId r <> Some (bytesToString [x61]).
Proof.
  eexists. split; [vm_compute; reflexivity|].
  split; [vm_compute; reflexivity|]. vm_compute. congruence.
Qed.

(** C1 (amended): when every token, the last one included, is followed by
    0xFF ([layout]), with at most 16 tokens, no 0xFF inside a token or the
    binary tail, and a 256-byte signature at the end: the values read are
    exactly the tokens as Latin-1 strings (with fewer than 16 tokens the
    binary tail is read as one more value); without the anomaly correction
    field position [i] holds token [i]; and the signature is exactly the
    last 256 bytes. *)
Theorem delimited_fields_recovered dp now toks photo hashes sig :
  Forall no_delim toks -> (1 <= List.length toks <= 16)%nat ->
  no_delim (photo ++ hashes ++ sig) -> List.length sig = 256%nat ->
  let buf := layout toks (photo ++ hashes ++ sig) in
  readFieldValues buf =
    map bytesToString toks ++
      (if (List.length toks <? 16)%nat then [bytesToString (photo ++ hashes ++ sig)] else []) /\
  exists r, extractDataFields dp now buf = Some r /\ signature r = sig /\
    (anomaly_trigger (map bytesToString toks) = false ->
     forall i, (1 <= i < List.length toks)%nat ->
       field_at r i = Some (bytesToString (nth i toks []))).
Proof.
  intros Hf Hlen Hnt Hsig buf.
  assert (Htail : photo ++ hashes ++ sig <> []).
  { intros H. apply (f_equal (@List.length byte)) in H.
    rewrite !length_app, Hsig in H. simpl in H. lia. }
  assert (Hread := readFieldValues_layout toks _ Hf ltac:(lia) Htail Hnt).
  split; [exact Hread|].
  destruct (extractDataFields dp now buf) as [r|] eqn:E.
  2:{ apply extract_none_iff in E. exfalso. revert E.
      apply layout_not_nil. destruct toks; simpl in Hlen; [lia|discriminate]. }
  exists r. split; [reflexivity|].
  apply extract_spec in E as (_ & _ & Hfields & _ & Hs).
  split.
  - rewrite Hs. unfold buf, layout. rewrite !app_assoc.
    apply signature_slice_last. exact Hsig.
  - intros Htrig i Hi. rewrite Hfields by lia.
    unfold corrected_fields. rewrite fieldShift_of_trigger.
    fold buf in Hread. rewrite Hread.
    destruct toks as [|t0 [|t1 rest]]; simpl in Hi; try lia.
    simpl map in Htrig |- *. simpl app.
    lazymatch goal with
    | |- context [anomaly_trigger ?l] =>
        replace (anomaly_trigger l) with false by (symmetry; exact Htrig)
    end.
    change (bytesToString t0 :: bytesToString t1 :: map bytesToString rest ++ ?x)
      with (map bytesToString (t0 :: t1 :: rest) ++ x).
    apply nth_error_map_app. simpl. lia.
Qed.

(** C1 (amended), witness: tokens "0" and "a", a one-byte photo, no hash,
    a zero signature. *)
Lemma delimited_fields_recovered_witness :
  exists r,
    extractDataFields no_date 0 (layout [[x30]; [x61]] ([x01] ++ [] ++ repeat x00 256)) = Some r /\
    signature r = repeat x00 256.
Proof.
  destruct (delimited_fields_recovered no_date 0 [[x30]; [x61]] [x01] [] (repeat x00 256))
    as [_ [r [Hr [Hs _]]]].
  - repeat (apply Forall_cons; [reflexivity|]). apply Forall_nil.
  - simpl. lia.
  - reflexivity.
  - reflexivity.
  - exists r. split; assumption.
Defined.

(** ** C2: the photo range *)

Lemma text_end_acc l a :
  fold_left (fun acc v => acc + Z.of_nat (String.length v) + 1) l a =
  a + fold_left (fun acc v => acc + Z.of_nat (String.length v) + 1) l 0.
Proof.
  revert a. induction l as [|v l IH]; intros a; simpl; [lia|].
  rewrite (IH (a + _ + 1)), (IH (Z.of_nat _ + 1)). lia.
Qed.

Lemma text_end_layout toks :
  text_end (map bytesToString toks) =
  Z.of_nat (List.length (List.concat (map (fun t => t ++ [DELIMITER]) toks))).
Proof.
  unfold text_end. induction toks as [|t toks IH]; [reflexivity|].
  simpl. rewrite text_end_acc, IH, bytesToString_length, !length_app. simpl. lia.
Qed.

Lemma slice_end_zero {A} (l : list A) s : JS.slice l s 0 = [].
Proof.
  unfold JS.slice, JS.rel_index. simpl.
  replace (Z.to_nat _) with 0%nat; [reflexivity|].
  destruct (Z.ltb_spec s 0); lia.
Qed.

(** 16 delimited tokens: the binary tail is not read. *)
Lemma readFieldValues_layout16 toks tail :
  Forall no_delim toks -> List.length toks = 16%nat ->
  readFieldValues (layout toks tail) = map bytesToString toks.
Proof.
  intros Hf Hlen. unfold readFieldValues.
  rewrite read_fields_layout by (assumption || lia).
  rewrite Hlen. simpl. apply app_nil_r.
Qed.

(** C2, counterexample: with fewer than 16 text fields the binary tail is
    read as one more field and counted into the text region, so the photo
    comes out empty although one photo byte [x01] lies between the last
    delimiter and the signature. *)
Lemma C2_photo_lost_after_two_fields :
  exists r,
    extractDataFields no_date 0 (layout [[x30]; [x61]] ([x01] ++ repeat x00 256)) = Some r /\
    photo r = [] /\
    JS.slice (layout [[x30]; [x61]] ([x01] ++ repeat x00 256)) 4 5 = [x01].
Proof.
  eexists. split; [vm_compute; reflexivity|]. split; vm_compute; reflexivity.
Qed.

(** C2 (amended): when the parser reads 16 text fields (the layout's 16
    delimited tokens; the binary tail is then not scanned, 0xFF inside it
    is allowed), no anomaly correction applies, and the tail holds the
    photo, 32 bytes per hash the indicator selects, and a 256-byte
    signature, the photo is exactly the bytes from the offset after the
    16th delimiter to the first hash (or the signature).  And a 256-byte
    payload with indicator 0 has an empty photo. *)
Theorem photo_range dp now :
  (forall toks ph hashes sig r,
     Forall no_delim toks -> List.length toks = 16%nat ->
     anomaly_trigger (map bytesToString toks) = false ->
     List.length sig = 256%nat ->
     extractDataFields dp now (layout toks (ph ++ hashes ++ sig)) = Some r ->
     List.length hashes = (32 * hash_count (emailMobilePresent r))%nat ->
     photo r = ph) /\
  (forall buf r,
     List.length buf = 256%nat ->
     extractDataFields dp now buf = Some r ->
     emailMobilePresent r = 0 ->
     photo r = []).
Proof.
  split.
  - intros toks ph hashes sig r Hf Hlen Htrig Hsig E Hh.
    apply extract_spec in E as (_ & Hemp & _ & Hbt & _).
    rewrite readFieldValues_layout16 in Hemp, Hbt by assumption.
    unfold corrected_fields in Hbt. rewrite fieldShift_of_trigger, Htrig in Hbt.
    rewrite text_end_layout in Hbt. rewrite <- Hemp in Hbt.
    unfold layout in Hbt |- *.
    set (X := List.concat (map (fun t => t ++ [DELIMITER]) toks)) in *.
    assert (HL : Z.of_nat (List.length (X ++ ph ++ hashes ++ sig)) =
                 Z.of_nat (List.length (X ++ ph)) + Z.of_nat (List.length hashes) + 256)
      by (rewrite !length_app; lia).
    unfold binary_tail, SIGNATURE_SIZE in Hbt. rewrite HL in Hbt. simpl orb in Hbt.
    unfold hash_count in Hh.
    destruct (emailMobilePresent r =? 3);
      [|destruct (emailMobilePresent r =? 2);
        [|destruct (emailMobilePresent r =? 1)]];
      injection Hbt as _ _ ->; rewrite Hh;
      [ replace (Z.of_nat (List.length (X ++ ph)) + Z.of_nat (32 * 2) + 256 - 256 - 32 - 32)
          with (Z.of_nat (List.length (X ++ ph))) by lia
      | replace (Z.of_nat (List.length (X ++ ph)) + Z.of_nat (32 * 1) + 256 - 256 - 32)
          with (Z.of_nat (List.length (X ++ ph))) by lia
      | replace (Z.of_nat (List.length (X ++ ph)) + Z.of_nat (32 * 1) + 256 - 256 - 32)
          with (Z.of_nat (List.length (X ++ ph))) by lia
      | replace (Z.of_nat (List.length (X ++ ph)) + Z.of_nat (32 * 0) + 256 - 256)
          with (Z.of_nat (List.length (X ++ ph))) by lia ];
      apply slice_app_middle.
  - intros buf r Hlen E H0.
    apply extract_spec in E as (_ & Hemp & _ & Hbt & _).
    assert (Hs : fieldShift_of (readFieldValues buf) = false).
    { rewrite H0 in Hemp. unfold indicator_of in Hemp.
      destruct (fieldShift_of (readFieldValues buf)); [discriminate|reflexivity]. }
    unfold binary_tail, SIGNATURE_SIZE in Hbt. rewrite <- Hemp, H0, Hs, Hlen in Hbt.
    simpl in Hbt. injection Hbt as _ _ ->. apply slice_end_zero.
Qed.

(** C2 (amended), witness: 16 tokens, a photo that contains 0xFF, no hash;
    and a 256-byte zero payload. *)
Lemma photo_range_witness :
  (exists r,
     extractDataFields no_date 0
       (layout ([x30] :: repeat [x61] 15) ([x01; xff] ++ [] ++ repeat x00 256)) = Some r /\
     photo r = [x01; xff]) /\
  (exists r, extractDataFields no_date 0 (repeat x00 256) = Some r /\ photo r = []).
Proof.
  split.
  - eexists. split; [vm_compute; reflexivity|].
    apply (proj1 (photo_range no_date 0) ([x30] :: repeat [x61] 15) [x01; xff] []
             (repeat x00 256)).
    + repeat (apply Forall_cons; [reflexivity|]). apply Forall_nil.
    + reflexivity.
    + vm_compute. reflexivity.
    + reflexivity.
    + vm_compute. reflexivity.
    + vm_compute. reflexivity.
  - eexists. split; [vm_compute; reflexivity|].
    apply (proj2 (photo_range no_date 0) (repeat x00 256)).
    + reflexivity.
    + vm_compute. reflexivity.
    + vm_compute. reflexivity.
Defined.

(** ** C3: the hash segments *)

Lemma seg_length (buf : list byte) a :
  0 <= a -> a + 32 <= Z.of_nat (List.length buf) ->
  List.length (JS.slice buf a (a + 32)) = 32%nat.
Proof.
  intros H1 H2. rewrite slice_range by lia.
  replace (Z.to_nat (a + 32 - a)) with 32%nat by lia.
  rewrite length_firstn, length_skipn. lia.
Qed.

(** C3, counterexample: for indicator 3 the mobile hash is the 32 bytes
    right before the signature and the email hash the 32 bytes before it, so
    in byte order the email hash comes first (here the email bytes [x01]
    precede the mobile bytes [x02]); and on a 258-byte payload the "mobile
    hash" is the empty slice, not 32 bytes. *)
Lemma C3_email_before_mobile :
  (exists r,
     extractDataFields no_date 0
       ([x33; xff] ++ repeat x01 32 ++ repeat x02 32 ++ repeat x00 256) = Some r /\
     emailHash r = Some (bytesToHexString (repeat x01 32)) /\
     mobileHash r = Some (bytesToHexString (repeat x02 32))) /\
  (exists r,
     extractDataFields no_date 0 ([x33; xff] ++ repeat x00 256) = Some r /\
     mobileHash r = Some (bytesToHexString [])).
Proof.
  split; eexists; (split; [vm_compute; reflexivity|]); vm_compute; auto.
Qed.

(** C3 (amended): when the payload is long enough for the selected hashes
    (256 bytes plus 32 per hash), every extracted hash is the hex string of
    exactly 32 bytes; the mobile hash is the 32 bytes right before the
    signature; the email hash is the 32 bytes right before the signature
    when alone and right before the mobile hash when both are present, so
    in byte order the layout is email, mobile, signature. *)
Theorem hash_segments dp now buf r :
  extractDataFields dp now buf = Some r ->
  let L := Z.of_nat (List.length buf) in
  let seg a := JS.slice buf a (a + 32) in
  (forall h, mobileHash r = Some h -> 288 <= L ->
     h = bytesToHexString (seg (L - 288)) /\ List.length (seg (L - 288)) = 32%nat) /\
  (forall h, emailHash r = Some h -> mobileHash r = None -> 288 <= L ->
     h = bytesToHexString (seg (L - 288)) /\ List.length (seg (L - 288)) = 32%nat) /\
  (forall h, emailHash r = Some h -> mobileHash r <> None -> 320 <= L ->
     h = bytesToHexString (seg (L - 320)) /\ List.length (seg (L - 320)) = 32%nat).
Proof.
  intros E L seg.
  apply extract_spec in E as (_ & _ & _ & Hbt & _).
  unfold binary_tail, SIGNATURE_SIZE in Hbt. fold L in Hbt.
  destruct ((indicator_of (readFieldValues buf) =? 3) || fieldShift_of (readFieldValues buf));
    [|destruct (indicator_of (readFieldValues buf) =? 2);
      [|destruct (indicator_of (readFieldValues buf) =? 1)]];
    injection Hbt as Hm He _; rewrite Hm, He;
    (split; [|split]; intros h Hh; [intros HL | intros Hn HL | intros Hn HL]);
    try discriminate Hh; try discriminate Hn; try (exfalso; apply Hn; reflexivity);
    injection Hh as <-;
    (split; [unfold seg; f_equal; f_equal; lia | apply seg_length; lia]).
Qed.

(** C3 (amended), witness: indicator 3 with email bytes [x01] and mobile
    bytes [x02]. *)
Lemma hash_segments_witness :
  let buf := [x33; xff] ++ repeat x01 32 ++ repeat x02 32 ++ repeat x00 256 in
  exists r, extractDataFields no_date 0 buf = Some r /\
    exists h, emailHash r = Some h /\
      h = bytesToHexString (JS.slice buf (Z.of_nat (List.length buf) - 320)
                              (Z.of_nat (List.length buf) - 320 + 32)).
Proof.
  intros buf.
  destruct (extractDataFields no_date 0 buf) as [r|] eqn:E;
    [|vm_compute in E; discriminate E].
  exists r. split; [reflexivity|].
  destruct (hash_segments no_date 0 buf r E) as (_ & _ & He).
  assert (Hr : emailHash r = Some (bytesToHexString (repeat x01 32)))
    by (vm_compute in E; injection E as <-; reflexivity).
  assert (Hm : mobileHash r <> None)
    by (vm_compute in E; injection E as <-; discriminate).
  exists (bytesToHexString (repeat x01 32)). split; [exact Hr|].
  apply (He _ Hr Hm). vm_compute. intros H; discriminate H.
Defined.

(* ------------------------------------------------------------------ *)
(** ** C4: the anomaly correction *)

Lemma replace_nth_length {A} i (v : A) l :
  List.length (replace_nth i v l) = List.length l.
Proof.
  revert i; induction l as [|h t IH]; intros [|i]; cbn; auto.
Qed.

Lemma replace_nth_nth i v l p :
  nth p (replace_nth i v l) EmptyString =
  if Nat.eqb p i then (if Nat.ltb i (List.length l) then v else nth p l EmptyString)
  else nth p l EmptyString.
Proof.
  revert i p; induction l as [|h t IH]; intros [|i] [|p]; cbn;
    try reflexivity; try (destruct (Nat.eqb _ _); reflexivity).
  rewrite IH. destruct (Nat.eqb p i); [|reflexivity].
    reflexivity.
Qed.

Lemma shift_loop_length k i l :
  List.length (shift_loop k i l) = List.length l.
Proof.
  revert i l; induction k as [|k IH]; intros i l; cbn; [reflexivity|].
  rewrite IH. apply replace_nth_length.
Qed.

Lemma shift_loop_nth k i l p :
  nth p (shift_loop k i l) EmptyString =
  if Nat.leb i p && Nat.ltb p (i + k) then nth (S p) l EmptyString
  else nth p l EmptyString.
Proof.
  revert i l; induction k as [|k IH]; intros i l; cbn [shift_loop].
  - destruct (Nat.leb_spec i p), (Nat.ltb_spec p (i + 0)); cbn; try reflexivity; lia.
  - rewrite IH, !replace_nth_nth.
    destruct (Nat.leb_spec (S i) p), (Nat.ltb_spec p (S i + k)), (Nat.eqb_spec (S p) i),
      (Nat.eqb_spec p i), (Nat.leb_spec i p), (Nat.ltb_spec p (i + S k));
      cbn [andb]; try lia; try reflexivity;
      subst p; destruct (Nat.ltb_spec i (List.length l)); try reflexivity;
      rewrite !nth_overflow by lia; reflexivity.
Qed.

(** The loop of lines 392-394 is the spec's shift. *)
Lemma shift_fields_spec toks :
  (2 <= List.length toks)%nat -> shift_fields toks = anomaly_shift_spec toks.
Proof.
  intros Hn. unfold shift_fields, anomaly_shift_spec. cbv zeta.
  apply nth_ext with (d := EmptyString) (d' := EmptyString).
  - rewrite shift_loop_length, length_map, length_seq. reflexivity.
  - intros p Hp. rewrite shift_loop_length in Hp.
    rewrite shift_loop_nth.
    assert (E : forall (f : nat -> string) n q, (q < n)%nat ->
               nth q (map f (seq 0 n)) EmptyString = f q).
    { intros f n q Hq.
      rewrite nth_indep with (d' := f 0%nat) by (rewrite length_map, length_seq; lia).
      rewrite map_nth, seq_nth by lia. reflexivity. }
    rewrite E by exact Hp. cbn [Nat.add].
    destruct (Nat.leb_spec 1 p), (Nat.ltb_spec p (S (List.length toks - 2))),
      (Nat.leb_spec p (List.length toks - 2)); cbn; try reflexivity; lia.
Qed.

Lemma extract_some dp now buf :
  readFieldValues buf <> [] -> exists r, extractDataFields dp now buf = Some r.
Proof.
  intros H. destruct (extractDataFields dp now buf) as [r|] eqn:E; [eauto|].
  apply extract_none_iff in E. subst buf. contradiction.
Qed.

(** C4: for a token sequence of length [n >= 2], the correction applies
    exactly when token0 does not parse as an integer and token1 is "3".  When
    it applies, the indicator is 3 and field [i] holds [token[i+1]] for [i] in
    [1, n-2] (the other positions unchanged); otherwise the indicator is
    token0 parsed as an integer (0 when it does not parse) and field [i] holds
    [token[i]]. *)
Theorem anomaly_correction_exact dp now buf :
  let toks := readFieldValues buf in
  (2 <= List.length toks)%nat ->
  corrected_fields toks = (if anomaly_trigger toks then anomaly_shift_spec toks else toks) /\
  exists r, extractDataFields dp now buf = Some r /\
    (anomaly_trigger toks = true ->
       emailMobilePresent r = 3 /\
       forall i, (1 <= i <= 15)%nat -> field_at r i = nth_error (anomaly_shift_spec toks) i) /\
    (anomaly_trigger toks = false ->
       emailMobilePresent r =
         match JS.parseInt (JS.trim (nth 0 toks EmptyString)) 10 with
         | Some v => v
         | None => 0
         end /\
       forall i, (1 <= i <= 15)%nat -> field_at r i = nth_error toks i).
Proof.
  intros toks Hn.
  assert (Hc : corrected_fields toks =
               (if anomaly_trigger toks then anomaly_shift_spec toks else toks)).
  { unfold corrected_fields. rewrite fieldShift_of_trigger.
    destruct (anomaly_trigger toks); [apply shift_fields_spec; exact Hn|reflexivity]. }
  split; [exact Hc|].
  assert (Hne : toks <> []) by (intros E; rewrite E in Hn; cbn in Hn; lia).
  destruct (extract_some dp now buf Hne) as [r Er].
  exists r. split; [exact Er|].
  destruct (extract_spec dp now buf r Er) as (_ & Hemp & Hf & _).
  fold toks in Hemp, Hf. rewrite Hc in Hf.
  unfold indicator_of in Hemp. rewrite fieldShift_of_trigger in Hemp.
  split; intros Ht; rewrite Ht in Hemp, Hf; split; try exact Hf.
  - exact Hemp.
  - rewrite Hemp. destruct toks as [|t0 tr]; [contradiction|reflexivity].
Qed.

(** C4, witness: tokens "x", "3", "a", "b" are corrected: indicator 3 and
    the first named field is "a". *)
Lemma anomaly_correction_exact_witness :
  let buf := [x78; xff; x33; xff; x61; xff; x62; xff] in
  exists r, extractDataFields no_date 0 buf = Some r /\
    emailMobilePresent r = 3 /\ field_at r 1 = Some "a"%string.
Proof.
  intros buf.
  assert (Hn : (2 <= List.length (readFieldValues buf))%nat) by (vm_compute; lia).
  destruct (anomaly_correction_exact no_date 0 buf Hn) as (_ & r & Er & Ht & _).
  destruct Ht as [He Hf]; [vm_compute; reflexivity|].
  exists r. split; [exact Er|]. split; [exact He|].
  rewrite (Hf 1%nat) by lia. vm_compute. reflexivity.
Defined.

(* ------------------------------------------------------------------ *)
(** ** C5: no length check *)

Lemma signature_slice (buf : list byte) :
  let L := Z.of_nat (List.length buf) in
  JS.slice buf (L - SIGNATURE_SIZE) L = skipn (Z.to_nat (signature_start L)) buf.
Proof.
  cbv zeta. unfold JS.slice, JS.rel_index, signature_start, SIGNATURE_SIZE.
  destruct (Z.ltb_spec (Z.of_nat (List.length buf)) 0); [lia|].
  rewrite Z.min_l by lia.
  destruct (Z.ltb_spec (Z.of_nat (List.length buf) - 256) 0),
    (Z.ltb_spec (Z.of_nat (List.length buf)) 256); try lia;
    (rewrite firstn_all2 by (rewrite length_skipn; lia);
     do 2 f_equal; lia).
Qed.

(** C5, counterexample: a 3-byte payload, far below 256 bytes, is parsed
    into a record whose signature is the whole payload. *)
Lemma C5_short_payload_parsed :
  exists r, extractDataFields no_date 0 [x30; xff; x61] = Some r /\
    signature r = [x30; xff; x61].
Proof.
  eexists. split; [vm_compute; reflexivity|]. vm_compute. reflexivity.
Qed.

(** C5 (amended): the parser has no length check.  Every non-empty payload,
    of any length, yields a record; its signature is the payload from the
    offset [signature_start L] on: the last 256 bytes when [L >= 256], and
    when [L < 256] the bytes from [max (2L - 256) 0], so fewer than 256. *)
Theorem no_signature_bounds_check dp now buf :
  buf <> [] ->
  let L := Z.of_nat (List.length buf) in
  exists r, extractDataFields dp now buf = Some r /\
    signature r = skipn (Z.to_nat (signature_start L)) buf /\
    Z.of_nat (List.length (signature r)) =
      (if L <? 256 then Z.min L (256 - L) else 256).
Proof.
  intros Hb L.
  assert (Hne : readFieldValues buf <> [])
    by (intros E; apply readFieldValues_nil_iff in E; contradiction).
  destruct (extract_some dp now buf Hne) as [r Er].
  exists r. split; [exact Er|].
  destruct (extract_spec dp now buf r Er) as (_ & _ & _ & _ & Hs).
  rewrite signature_slice in Hs. split; [exact Hs|].
  rewrite Hs, length_skipn. subst L. unfold signature_start.
  destruct (Z.ltb_spec (Z.of_nat (List.length buf)) 256); lia.
Qed.

(** C5, witness: a 200-byte payload yields a record whose signature is its
    last 56 bytes. *)
Lemma no_signature_bounds_check_witness :
  let buf := [x30; xff] ++ repeat x00 198 in
  exists r, extractDataFields no_date 0 buf = Some r /\
    List.length (signature r) = 56%nat.
Proof.
  intros buf.
  assert (Hb : buf <> []) by discriminate.
  destruct (no_signature_bounds_check no_date 0 buf Hb) as (r & Er & _ & Hl).
  exists r. split; [exact Er|].
  apply Nat2Z.inj. rewrite Hl. vm_compute. reflexivity.
Defined.

(* ------------------------------------------------------------------ *)
(** ** C6: the token count *)

(** C6, counterexample: the one-token payload "0" is parsed into a record
    (with no named field set). *)
Lemma C6_one_token_record :
  List.length (readFieldValues [x30]) = 1%nat /\
  exists r, extractDataFields no_date 0 [x30] = Some r /\ referenceId r = None.
Proof.
  split; [vm_compute; reflexivity|].
  eexists. split; [vm_compute; reflexivity|]. vm_compute. reflexivity.
Qed.

(** C6 (amended): the parser fails only on the empty payload, where no token
    is read; a payload from which exactly one token is read yields a record
    whose named text fields are all undefined. *)
Theorem field_count_failure dp now buf :
  (extractDataFields dp now buf = None <-> buf = []) /\
  (List.length (readFieldValues buf) = 1%nat ->
   exists r, extractDataFields dp now buf = Some r /\
     forall i, (1 <= i <= 15)%nat -> field_at r i = None).
Proof.
  split; [apply extract_none_iff|].
  intros H1.
  assert (Hne : readFieldValues buf <> [])
    by (intros E; rewrite E in H1; discriminate H1).
  destruct (extract_some dp now buf Hne) as [r Er].
  exists r. split; [exact Er|].
  destruct (extract_spec dp now buf r Er) as (_ & _ & Hf & _).
  intros i Hi. rewrite (Hf i Hi). unfold corrected_fields.
  destruct (readFieldValues buf) as [|t0 [|t1 tr]]; try discriminate H1.
  cbn [fieldShift_of]. destruct i as [|i]; [lia|]. destruct i; reflexivity.
Qed.

(** C6, witness: the one-token payload "0". *)
Lemma field_count_failure_witness :
  exists r, extractDataFields no_date 0 [x30] = Some r /\ field_at r 2 = None.
Proof.
  assert (H1 : List.length (readFieldValues [x30]) = 1%nat) by (vm_compute; reflexivity).
  destruct (proj2 (field_count_failure no_date 0 [x30]) H1) as (r & Er & Hf).
  exists r. split; [exact Er|]. apply Hf. lia.
Defined.

(* ------------------------------------------------------------------ *)
(** ** C10: a partially numeric first token *)

Lemma dec_digit_range c :
  is_dec_digit c = true <-> (48 <= nat_of_ascii c <= 57)%nat.
Proof.
  unfold is_dec_digit.
  destruct (Nat.leb_spec 48 (nat_of_ascii c)), (Nat.leb_spec (nat_of_ascii c) 57);
    cbn; split; intros; try lia; try reflexivity; discriminate.
Qed.



Lemma digits_value_decimal l a :
  fold_left (fun acc d => acc * 10 + d) (map (fun ch => Z.of_nat (nat_of_ascii ch) - 48) l) a =
  fold_left (fun acc c => acc * 10 + (Z.of_nat (nat_of_ascii c) - 48)) l a.
Proof.
  revert a; induction l as [|x l IH]; intros a; cbn; [reflexivity|apply IH].
Qed.

Lemma decimal_fold_nonneg l a :
  Forall (fun c => is_dec_digit c = true) l -> 0 <= a ->
  0 <= fold_left (fun acc c => acc * 10 + (Z.of_nat (nat_of_ascii c) - 48)) l a.
Proof.
  revert a; induction l as [|c r IH]; intros a Hl Ha; [exact Ha|].
  pose proof (Forall_inv Hl) as Hc. apply dec_digit_range in Hc.
  cbn [fold_left]. apply IH; [exact (Forall_inv_tail Hl)|lia].
Qed.

Lemma decimal_value_nonneg s :
  forallb is_dec_digit (list_ascii_of_string s) = true -> 0 <= decimal_value s.
Proof.
  intros Hs. apply decimal_fold_nonneg; [|lia].
  apply Forall_forall, forallb_forall. exact Hs.
Qed.







(* ------------------------------------------------------------------ *)
(** ** C9: the age *)

(** C9: [calculateAge] is the difference of the years, minus one exactly when
    today's (month, day) precedes the birthday's; for a birth on 2000-06-15
    it gives 23 on 2024-06-14 and 24 on every day of 2024 from 06-15 on. *)
Theorem age_by_calendar :
  (forall today dob,
     calculateAge today dob =
       DateJS.getFullYear today - DateJS.getFullYear dob -
       (if md_precedes (DateJS.getMonth today) (DateJS.getDate today)
                       (DateJS.getMonth dob) (DateJS.getDate dob) then 1 else 0)) /\
  (forall dob, DateJS.new_Date_ymd 2000 5 15 = Some dob ->
     (forall today, DateJS.new_Date_ymd 2024 5 14 = Some today ->
        calculateAge today dob = 23) /\
     (forall today, DateJS.getFullYear today = 2024 ->
        md_precedes (DateJS.getMonth today) (DateJS.getDate today) 5 15 = false ->
        calculateAge today dob = 24)).
Proof.
  assert (Hgen : forall today dob,
     calculateAge today dob =
       DateJS.getFullYear today - DateJS.getFullYear dob -
       (if md_precedes (DateJS.getMonth today) (DateJS.getDate today)
                       (DateJS.getMonth dob) (DateJS.getDate dob) then 1 else 0)).
  { intros today dob. unfold calculateAge, md_precedes.
    destruct (Z.ltb_spec (DateJS.getMonth today - DateJS.getMonth dob) 0),
      (Z.eqb_spec (DateJS.getMonth today - DateJS.getMonth dob) 0),
      (Z.ltb_spec (DateJS.getMonth today) (DateJS.getMonth dob)),
      (Z.eqb_spec (DateJS.getMonth today) (DateJS.getMonth dob)),
      (Z.ltb_spec (DateJS.getDate today) (DateJS.getDate dob));
      cbn [orb andb]; lia. }
  split; [exact Hgen|].
  assert (Hymd : forall y m d t, DateJS.new_Date_ymd y m d = Some t ->
            option_map (fun t => (DateJS.getFullYear t, DateJS.getMonth t, DateJS.getDate t))
              (DateJS.new_Date_ymd y m d) =
            Some (DateJS.getFullYear t, DateJS.getMonth t, DateJS.getDate t))
    by (intros y m d t E; rewrite E; reflexivity).
  intros dob Hd.
  pose proof (Hymd _ _ _ _ Hd) as Ed. rewrite date_2000_06_15 in Ed.
  injection Ed as Edy Edm Edd.
  split.
  - intros today Ht.
    pose proof (Hymd _ _ _ _ Ht) as Et. rewrite date_2024_06_14 in Et.
    injection Et as Ety Etm Etd.
    rewrite Hgen, <- Ety, <- Etm, <- Etd, <- Edy, <- Edm, <- Edd. reflexivity.
  - intros today Hy Hmd.
    rewrite Hgen, Hy, <- Edy, <- Edm, <- Edd, Hmd. reflexivity.
Qed.

(** C9, witness: born 2000-06-15, aged 24 on 2024-12-31 and 23 on
    2024-06-14. *)
Lemma age_by_calendar_witness :
  let dob := match DateJS.new_Date_ymd 2000 5 15 with Some t => t | None => 0 end in
  let t1 := match DateJS.new_Date_ymd 2024 5 14 with Some t => t | None => 0 end in
  let t2 := match DateJS.new_Date_ymd 2024 11 31 with Some t => t | None => 0 end in
  calculateAge t1 dob = 23 /\ calculateAge t2 dob = 24.
Proof.
  intros dob t1 t2.
  assert (Hd : DateJS.new_Date_ymd 2000 5 15 = Some dob) by (vm_compute; reflexivity).
  destruct (proj2 age_by_calendar dob Hd) as [H23 H24].
  split.
  - apply H23. vm_compute. reflexivity.
  - apply H24; vm_compute; reflexivity.
Defined.

(* ------------------------------------------------------------------ *)
(** ** C8: the range of a date of birth *)

(** C8: [parseDateOfBirth] rejects a date read from the string that lies
    after the instant [now], and one before [minDate] (today with its year
    decreased by 120); a date it returns is the one read from the string and
    lies between [minDate] and [now]. *)
Theorem dob_within_range dp now s :
  (forall dob, dob_of_string dp (JS.trim s) = Some dob -> now < dob ->
     parseDateOfBirth dp now s = None) /\
  (forall dob m, dob_of_string dp (JS.trim s) = Some dob -> minDate now = Some m ->
     dob < m -> parseDateOfBirth dp now s = None) /\
  (forall d, parseDateOfBirth dp now s = Some d ->
     dob_of_string dp (JS.trim s) = Some d /\ d <= now /\
     forall m, minDate now = Some m -> m <= d).
Proof.
  unfold parseDateOfBirth.
  split; [|split].
  - intros dob Hd Hf. rewrite Hd. destruct (Z.ltb_spec now dob); [reflexivity|lia].
  - intros dob m Hd Hm Hlt. rewrite Hd.
    destruct (Z.ltb_spec now dob); [reflexivity|]. rewrite Hm.
    destruct (Z.ltb_spec dob m); [reflexivity|lia].
  - intros d. destruct (dob_of_string dp (JS.trim s)) as [dob|]; [|discriminate].
    destruct (Z.ltb_spec now dob); [discriminate|].
    destruct (minDate now) as [m0|] eqn:Hm.
    + destruct (Z.ltb_spec dob m0); [discriminate|].
      intros E; injection E as <-. split; [reflexivity|]. split; [lia|].
      intros m Em. injection Em as <-. lia.
    + intros E; injection E as <-. split; [reflexivity|]. split; [lia|].
      intros m Em; discriminate Em.
Qed.

(** C8, witness: with today 2024-06-14, "15/06/2030" is rejected as future,
    "15/06/1890" as more than 120 years back, and "15/06/2000" is accepted. *)
Lemma dob_within_range_witness :
  let now := match DateJS.new_Date_ymd 2024 5 14 with Some t => t | None => 0 end in
  parseDateOfBirth no_date now "15/06/2030" = None /\
  parseDateOfBirth no_date now "15/06/1890" = None /\
  exists d, parseDateOfBirth no_date now "15/06/2000" = Some d /\ d <= now.
Proof.
  intros now.
  destruct (dob_within_range no_date now "15/06/2030") as [Hf _].
  destruct (dob_within_range no_date now "15/06/1890") as [_ [Hp _]].
  destruct (dob_within_range no_date now "15/06/2000") as [_ [_ Hok]].
  split; [|split].
  - eapply Hf; [vm_compute; reflexivity|vm_compute; reflexivity].
  - eapply Hp; [vm_compute; reflexivity|vm_compute; reflexivity|vm_compute; reflexivity].
  - assert (E : parseDateOfBirth no_date now "15/06/2000" = Some 961027200000)
      by (vm_compute; reflexivity).
    exists 961027200000. split; [exact E|]. exact (proj1 (proj2 (Hok _ E))).
Defined.

(* ------------------------------------------------------------------ *)
(** ** C7: [convertBase10ToByteArray] *)

Lemma hex_digits_hexl f n acc :
  BigIntJS.hex_digits f n (hexs acc) = hexs (hexl f n acc).
Proof.
  revert n acc; induction f as [|f IH]; intros n acc; cbn [BigIntJS.hex_digits hexl];
    [reflexivity|].
  destruct (n <? 16); [reflexivity|]. apply (IH _ (n mod 16 :: acc)).
Qed.

Lemma hexs_length l : String.length (hexs l) = List.length l.
Proof. induction l as [|x l IH]; cbn; [reflexivity|]. f_equal; exact IH. Qed.

Lemma digits_value_acc r l a :
  fold_left (fun acc d => acc * r + d) l a =
  a * r ^ Z.of_nat (List.length l) + JS.digits_value r l.
Proof.
  unfold JS.digits_value.
  revert a; induction l as [|x l IH]; intros a; cbn [fold_left List.length].
  - rewrite Z.pow_0_r. lia.
  - rewrite IH, (IH (0 * r + x)). rewrite Nat2Z.inj_succ, Z.pow_succ_r by lia. ring.
Qed.

Lemma digits_value_cons r x l :
  JS.digits_value r (x :: l) = x * r ^ Z.of_nat (List.length l) + JS.digits_value r l.
Proof.
  unfold JS.digits_value at 1. cbn [fold_left]. rewrite digits_value_acc. ring.
Qed.

Lemma hexl_spec f n acc :
  0 <= n < 16 ^ Z.of_nat f -> Forall hex_digit acc ->
  Forall hex_digit (hexl f n acc) /\
  JS.digits_value 16 (hexl f n acc) =
    n * 16 ^ Z.of_nat (List.length acc) + JS.digits_value 16 acc /\
  (0 < n -> exists d rest, hexl f n acc = d :: rest /\ d <> 0).
Proof.
  revert n acc; induction f as [|f IH]; intros n acc Hn Hacc; cbn [hexl].
  - cbn in Hn. assert (n = 0) as -> by lia.
    split; [exact Hacc|]. split; [lia|]. lia.
  - rewrite Nat2Z.inj_succ, Z.pow_succ_r in Hn by lia.
    destruct (Z.ltb_spec n 16).
    + rewrite Z.mod_small by lia.
      split; [constructor; [unfold hex_digit; lia|exact Hacc]|].
      split; [rewrite digits_value_cons; ring|].
      intros Hp. exists n, acc. split; [reflexivity|lia].
    + assert (Hd : 0 <= n / 16 < 16 ^ Z.of_nat f).
      { split; [apply Z.div_pos; lia|]. apply Z.div_lt_upper_bound; lia. }
      assert (Hm : hex_digit (n mod 16)) by (unfold hex_digit; apply Z.mod_pos_bound; lia).
      destruct (IH (n / 16) (n mod 16 :: acc) Hd (Forall_cons _ Hm Hacc))
        as (H1 & H2 & H3).
      split; [exact H1|]. split.
      * rewrite H2, digits_value_cons. cbn [List.length].
        rewrite Nat2Z.inj_succ, Z.pow_succ_r by lia.
        rewrite (Z.div_mod n 16) at 3 by lia. ring.
      * intros _. apply H3. apply Z.div_str_pos. lia.
Qed.

Lemma fuel_bound n : 0 < n -> n < 16 ^ Z.of_nat (BigIntJS.hex_fuel n).
Proof.
  intros Hn. unfold BigIntJS.hex_fuel.
  pose proof (Z.log2_nonneg n) as Hl. pose proof (Z.log2_spec n Hn) as [_ Hs].
  rewrite Nat2Z.inj_succ, Z2Nat.id by exact Hl.
  replace 16 with (2 ^ 4) by reflexivity. rewrite <- Z.pow_mul_r by lia.
  eapply Z.lt_le_trans; [exact Hs|]. apply Z.pow_le_mono_r; lia.
Qed.

Lemma pair_parse a b :
  hex_digit a -> hex_digit b ->
  JS.parseInt (String (JS.hex_char a) (String (JS.hex_char b) EmptyString)) 16 =
  Some (a * 16 + b).
Proof.
  unfold hex_digit. intros Ha Hb.
  assert (T : forallb (fun a => forallb (fun b =>
                 match JS.parseInt (String (JS.hex_char a) (String (JS.hex_char b) EmptyString)) 16 with
                 | Some v => v =? a * 16 + b
                 | None => false
                 end) (map Z.of_nat (seq 0 16))) (map Z.of_nat (seq 0 16)) = true)
    by (vm_compute; reflexivity).
  assert (Hin : forall x, 0 <= x < 16 -> In x (map Z.of_nat (seq 0 16))).
  { intros x Hx. rewrite <- (Z2Nat.id x) by lia. apply in_map, in_seq. lia. }
  rewrite forallb_forall in T. specialize (T a (Hin a Ha)).
  rewrite forallb_forall in T. specialize (T b (Hin b Hb)).
  destruct (JS.parseInt _ 16) as [v|]; [|discriminate T].
  apply Z.eqb_eq in T. subst v. reflexivity.
Qed.

Lemma ToUint8_value v :
  0 <= v < 256 -> Z.of_N (Byte.to_N (JS.ToUint8 (Some v))) = v.
Proof.
  intros Hv. unfold JS.ToUint8. rewrite Z.mod_small by exact Hv.
  destruct (Byte.of_N (Z.to_N v)) as [b|] eqn:E.
  - apply Byte.to_of_N in E. rewrite E. apply Z2N.id. lia.
  - apply Byte.of_N_None_iff in E. lia.
Qed.

Lemma convert_pairs m pd :
  List.length pd = (2 * m)%nat -> Forall hex_digit pd ->
  map (fun i => JS.ToUint8 (JS.parseInt (substring (i * 2) 2 (hexs pd)) 16)) (seq 0 m) =
  byte_pairs pd.
Proof.
  revert pd; induction m as [|m IH]; intros pd Hl Hd.
  - destruct pd; [reflexivity|discriminate Hl].
  - destruct pd as [|a [|b r]]; try (cbn in Hl; lia).
    inversion Hd as [|? ? Ha Hd']; subst. inversion Hd' as [|? ? Hb Hr]; subst.
    cbn [seq map byte_pairs]. rewrite <- seq_shift, map_map.
    f_equal.
    { unfold hexs. change (0 * 2)%nat with 0%nat.
      cbn [map string_of_list_ascii substring].
      lazymatch goal with
      | |- context [substring 0 0 ?t] =>
          replace (substring 0 0 t) with EmptyString by (destruct t; reflexivity)
      end.
      rewrite pair_parse by assumption. reflexivity. }
    apply (IH r); [cbn in Hl; lia|exact Hr].
Qed.

Lemma byte_pairs_value pd acc :
  (exists m, List.length pd = (2 * m)%nat) -> Forall hex_digit pd ->
  fold_left (fun a d => a * 256 + d) (map (fun b => Z.of_N (Byte.to_N b)) (byte_pairs pd)) acc =
  fold_left (fun a d => a * 16 + d) pd acc.
Proof.
  intros [m Hl]. revert pd acc Hl; induction m as [|m IH]; intros pd acc Hl Hd.
  - destruct pd; [reflexivity|discriminate Hl].
  - destruct pd as [|a [|b r]]; try (cbn in Hl; lia).
    inversion Hd as [|? ? Ha Hd']; subst. inversion Hd' as [|? ? Hb Hr]; subst.
    unfold hex_digit in Ha, Hb.
    cbn [byte_pairs map fold_left]. rewrite ToUint8_value by lia.
    replace (acc * 256 + (a * 16 + b)) with ((acc * 16 + a) * 16 + b) by ring.
    apply IH; [cbn in Hl; lia|exact Hr].
Qed.

Lemma byte_nonzero v : 0 < v < 256 -> JS.ToUint8 (Some v) <> x00.
Proof.
  intros Hv E. pose proof (ToUint8_value v ltac:(lia)) as H. rewrite E in H.
  cbn in H. lia.
Qed.

(** [convertBase10ToByteArray] of a string whose [BigInt] is [n >= 0]. *)
Lemma convert_nonneg s n :
  BigIntJS.StringToBigInt s = Some n -> 0 <= n ->
  exists bs, convertBase10ToByteArray s = Some bs /\
    be_value bs = n /\ (n = 0 -> bs = [x00]) /\ (0 < n -> hd x00 bs <> x00).
Proof.
  intros Hs Hn. unfold convertBase10ToByteArray. rewrite Hs.
  unfold BigIntJS.toString16. destruct (Z.ltb_spec n 0); [lia|].
  destruct (Z.eq_dec n 0) as [->|Hn0].
  { eexists. split; [reflexivity|]. split; [reflexivity|].
    split; [reflexivity|lia]. }
  change EmptyString with (hexs []). rewrite hex_digits_hexl.
  destruct (hexl_spec (BigIntJS.hex_fuel n) n [] ltac:(pose proof (fuel_bound n); lia)
              (Forall_nil _)) as (Hdig & Hval & Hhd).
  cbn [List.length JS.digits_value fold_left] in Hval.
  change (Z.of_nat 0) with 0 in Hval. rewrite Z.pow_0_r, Z.mul_1_r, Z.add_0_r in Hval.
  destruct Hhd as (d & rest & Hl & Hd0); [lia|].
  set (l := hexl (BigIntJS.hex_fuel n) n []) in *.
  rewrite hexs_length.
  assert (Hfold : forall pd, Forall hex_digit pd -> (exists m, List.length pd = (2 * m)%nat) ->
            JS.digits_value 16 pd = n ->
            be_value (byte_pairs pd) = n).
  { intros pd Hp He Hv. unfold be_value, JS.digits_value.
    rewrite byte_pairs_value by assumption. exact Hv. }
  destruct (Nat.Even_or_Odd (List.length l)) as [[m Hm]|[m Hm]].
  - rewrite Hm, Nat.odd_even. rewrite hexs_length, Hm.
    replace (2 * m / 2)%nat with m by (rewrite Nat.mul_comm, Nat.div_mul; lia).
    rewrite (convert_pairs m l) by assumption.
    eexists. split; [reflexivity|]. split; [apply Hfold; eauto|].
    split; [lia|]. intros _.
    destruct rest as [|e rest']; [rewrite Hl in Hm; cbn in Hm; lia|].
    rewrite Hl. cbn [byte_pairs hd].
    rewrite Hl in Hdig. pose proof (Forall_inv Hdig) as Hd.
    pose proof (Forall_inv (Forall_inv_tail Hdig)) as He. unfold hex_digit in Hd, He.
    apply byte_nonzero. lia.
  - rewrite Hm, Nat.odd_odd.
    change (String "0" (hexs l)) with (hexs (0 :: l)).
    rewrite hexs_length. cbn [List.length]. rewrite Hm.
    replace (S (2 * m + 1) / 2)%nat with (S m) by
      (replace (S (2 * m + 1)) with ((S m) * 2)%nat by lia; rewrite Nat.div_mul; lia).
    assert (Hdig0 : Forall hex_digit (0 :: l))
      by (constructor; [unfold hex_digit; lia|exact Hdig]).
    rewrite (convert_pairs (S m) (0 :: l)) by first [exact Hdig0 | cbn [List.length]; lia].
    eexists. split; [reflexivity|]. split.
    + apply Hfold; [exact Hdig0| exists (S m); cbn [List.length]; lia|].
      rewrite digits_value_cons. lia.
    + split; [lia|]. intros _.
      rewrite Hl. cbn [byte_pairs hd].
      rewrite Hl in Hdig. pose proof (Forall_inv Hdig) as Hd. unfold hex_digit in Hd.
      apply byte_nonzero. lia.
Qed.

Lemma digit_value_dec c :
  is_dec_digit c = true -> JS.digit_value c = Some (Z.of_nat (nat_of_ascii c) - 48).
Proof.
  intros Hd. apply dec_digit_range in Hd. unfold JS.digit_value.
  destruct (Z.leb_spec 48 (Z.of_nat (nat_of_ascii c))); [|lia].
  destruct (Z.leb_spec (Z.of_nat (nat_of_ascii c)) 57); [reflexivity|lia].
Qed.

Lemma digit_not_space c : is_dec_digit c = true -> JS.is_space c = false.
Proof.
  intros Hd. apply dec_digit_range in Hd. unfold JS.is_space.
  destruct (Nat.leb_spec 9 (nat_of_ascii c)), (Nat.leb_spec (nat_of_ascii c) 13),
    (Nat.eqb_spec (nat_of_ascii c) 32), (Nat.eqb_spec (nat_of_ascii c) 160);
    cbn; try reflexivity; lia.
Qed.

Lemma trim_digits s :
  forallb is_dec_digit (list_ascii_of_string s) = true -> JS.trim s = s.
Proof.
  intros Hs. unfold JS.trim.
  assert (Hst : JS.trim_start s = s).
  { destruct s as [|c r]; [reflexivity|]. cbn in Hs. apply andb_prop in Hs as [Hc _].
    cbn. rewrite digit_not_space by exact Hc. reflexivity. }
  rewrite Hst. unfold JS.trim_end.
  assert (Hf : Forall (fun c => is_dec_digit c = true) (rev (list_ascii_of_string s))).
  { apply Forall_rev, Forall_forall. apply forallb_forall. exact Hs. }
  assert (Hd : JS.drop_spaces (rev (list_ascii_of_string s)) = rev (list_ascii_of_string s)).
  { destruct (rev (list_ascii_of_string s)) as [|c r]; [reflexivity|].
    cbn [JS.drop_spaces]. rewrite digit_not_space by exact (Forall_inv Hf). reflexivity. }
  rewrite Hd, rev_involutive. apply string_of_list_ascii_of_string.
Qed.

Lemma all_digits_dec s :
  forallb is_dec_digit (list_ascii_of_string s) = true ->
  BigIntJS.all_digits 10 s =
    Some (map (fun ch => Z.of_nat (nat_of_ascii ch) - 48) (list_ascii_of_string s)).
Proof.
  induction s as [|c r IH]; intros Hs; [reflexivity|].
  cbn [list_ascii_of_string forallb] in Hs. apply andb_prop in Hs as [Hc Hr].
  cbn [BigIntJS.all_digits]. rewrite digit_value_dec by exact Hc.
  pose proof Hc as Hc'. apply dec_digit_range in Hc'.
  destruct (Z.ltb_spec (Z.of_nat (nat_of_ascii c) - 48) 10); [|lia].
  rewrite IH by exact Hr. reflexivity.
Qed.

Lemma prefix_radix_digit p : is_dec_digit p = true -> BigIntJS.prefix_radix p = None.
Proof.
  intros Hp. apply dec_digit_range in Hp. unfold BigIntJS.prefix_radix.
  destruct (Ascii.eqb_spec p "x") as [->|]; [cbn in Hp; lia|].
  destruct (Ascii.eqb_spec p "X") as [->|]; [cbn in Hp; lia|].
  destruct (Ascii.eqb_spec p "o") as [->|]; [cbn in Hp; lia|].
  destruct (Ascii.eqb_spec p "O") as [->|]; [cbn in Hp; lia|].
  destruct (Ascii.eqb_spec p "b") as [->|]; [cbn in Hp; lia|].
  destruct (Ascii.eqb_spec p "B") as [->|]; [cbn in Hp; lia|].
  reflexivity.
Qed.

(** [BigInt(s)] of a non-empty string of decimal digits is its value. *)
Lemma StringToBigInt_digits s :
  s <> EmptyString -> forallb is_dec_digit (list_ascii_of_string s) = true ->
  BigIntJS.StringToBigInt s = Some (decimal_value s).
Proof.
  intros Hne Hs. unfold BigIntJS.StringToBigInt. rewrite trim_digits by exact Hs.
  destruct s as [|c r]; [contradiction|].
  pose proof Hs as Hs'. cbn [list_ascii_of_string forallb] in Hs'.
  apply andb_prop in Hs' as [Hc Hr].
  assert (Hnd : BigIntJS.non_decimal (String c r) = None).
  { unfold BigIntJS.non_decimal. destruct r as [|p r']; [reflexivity|].
    destruct (Ascii.eqb c "0"); [|reflexivity].
    cbn [list_ascii_of_string forallb] in Hr. apply andb_prop in Hr as [Hp _].
    rewrite prefix_radix_digit by exact Hp. reflexivity. }
  rewrite Hnd. unfold BigIntJS.signed_decimal.
  pose proof Hc as Hc'. apply dec_digit_range in Hc'.
  destruct (Ascii.eqb_spec c "-") as [->|]; [cbn in Hc'; lia|].
  destruct (Ascii.eqb_spec c "+") as [->|]; [cbn in Hc'; lia|].
  unfold BigIntJS.digits_exact. rewrite all_digits_dec by exact Hs.
  cbn [option_map]. f_equal. unfold JS.digits_value, decimal_value.
  apply digits_value_decimal.
Qed.

(** C7, counterexample: inputs that are not non-negative decimal literals
    are converted without error: the empty string, a negative number, a hex
    literal and a padded number. *)
Lemma C7_accepts_non_decimal :
  convertBase10ToByteArray "" = Some [x00] /\
  convertBase10ToByteArray "-5" = Some [xfb] /\
  convertBase10ToByteArray "0x10" = Some [x10] /\
  convertBase10ToByteArray " 7 " = Some [x07].
Proof. vm_compute. repeat split. Qed.

(** C7 (amended): the conversion fails exactly when [BigInt] of the string
    throws, which accepts more than decimal literals (the empty or blank
    string, surrounding white space, a sign, "0x"/"0o"/"0b" literals).  When
    the value is non-negative, in particular for every non-empty string of
    decimal digits, it returns the minimal big-endian bytes of the value: the
    bytes' value is the number, zero is the single byte 0x00, and a positive
    number has a non-zero first byte.  "255" gives [0xFF] and "256" gives
    [0x01, 0x00]. *)
Theorem decimal_to_bytes s :
  (convertBase10ToByteArray s = None <-> BigIntJS.StringToBigInt s = None) /\
  (forall n, BigIntJS.StringToBigInt s = Some n -> 0 <= n ->
     exists bs, convertBase10ToByteArray s = Some bs /\
       be_value bs = n /\ (n = 0 -> bs = [x00]) /\ (0 < n -> hd x00 bs <> x00)) /\
  (s <> EmptyString -> forallb is_dec_digit (list_ascii_of_string s) = true ->
     exists bs, convertBase10ToByteArray s = Some bs /\
       be_value bs = decimal_value s /\
       (decimal_value s = 0 -> bs = [x00]) /\
       (0 < decimal_value s -> hd x00 bs <> x00)) /\
  convertBase10ToByteArray "255" = Some [xff] /\
  convertBase10ToByteArray "256" = Some [x01; x00].
Proof.
  split; [|split; [|split; [|split]]].
  - unfold convertBase10ToByteArray.
    destruct (BigIntJS.StringToBigInt s); split; congruence.
  - intros n Hs Hn. exact (convert_nonneg s n Hs Hn).
  - intros Hne Hd. apply convert_nonneg.
    + apply StringToBigInt_digits; assumption.
    + apply decimal_value_nonneg; exact Hd.
  - vm_compute. reflexivity.
  - vm_compute. reflexivity.
Qed.

(** C7, witness: the digit string "65536" gives three bytes of value 65536
    with a non-zero first byte. *)
Lemma decimal_to_bytes_witness :
  exists bs, convertBase10ToByteArray "65536" = Some bs /\
    be_value bs = 65536 /\ hd x00 bs <> x00.
Proof.
  destruct (proj1 (proj2 (proj2 (decimal_to_bytes "65536"))))
    as (bs & Hc & Hv & _ & Hh); [discriminate | vm_compute; reflexivity |].
  exists bs. split; [exact Hc|].
  assert (E : decimal_value "65536" = 65536) by (vm_compute; reflexivity).
  rewrite E in Hv, Hh. split; [exact Hv|]. apply Hh. lia.
Defined.

(* ------------------------------------------------------------------ *)
(** ** The image filters, the hash strings, the pipeline and the age *)
Lemma replace_nth_app {A} (pre l : list A) k v :
  replace_nth (List.length pre + k) v (pre ++ l) = pre ++ replace_nth k v l.
Proof. induction pre; cbn; [reflexivity | now rewrite IHpre]. Qed.

Lemma replace_nth_app_l {A} (w s : list A) k v :
  (k < List.length w)%nat -> replace_nth k v (w ++ s) = replace_nth k v w ++ s.
Proof.
  revert k; induction w as [|a w IH]; intros k Hk; cbn in *; [lia|].
  destruct k; [reflexivity|]. cbn. rewrite IH by lia. reflexivity.
Qed.

Lemma nth_error_app_shift {A} (pre l : list A) k :
  nth_error (pre ++ l) (List.length pre + k) = nth_error l k.
Proof. induction pre; cbn; auto. Qed.

Section Chunks.

Variable step : nat -> list Z -> list Z.
Hypothesis step_shift : forall pre l i,
  step (List.length pre + i) (pre ++ l) = pre ++ step i l.
Hypothesis step_cut : forall w s, List.length w = 4%nat ->
  step 0 (w ++ s) = step 0 w ++ s.
Hypothesis step_length : forall i l, List.length (step i l) = List.length l.

Lemma pixel_fold_concat n : forall pre l, (List.length l <= n)%nat ->
  fold_left (fun d i => step i d)
    (map (fun k => List.length pre + 4 * k)%nat (seq 0 ((List.length l + 3) / 4)))
    (pre ++ l) = pre ++ List.concat (map (step 0) (chunks4 l)).
Proof.
  induction n as [|n IH]; intros pre l Hl.
  - destruct l; cbn in *; [now rewrite app_nil_r | lia].
  - destruct l as [|a [|b [|c [|d r]]]]; cbn [List.length chunks4 map List.concat].
    + cbn. now rewrite app_nil_r.
    + simpl (_ / _)%nat. cbn [seq map fold_left]. rewrite Nat.add_0_r. rewrite <- (Nat.add_0_r (List.length pre)), step_shift, !app_nil_r. reflexivity.
    + simpl (_ / _)%nat. cbn [seq map fold_left]. rewrite Nat.add_0_r. rewrite <- (Nat.add_0_r (List.length pre)), step_shift, !app_nil_r. reflexivity.
    + simpl (_ / _)%nat. cbn [seq map fold_left]. rewrite Nat.add_0_r. rewrite <- (Nat.add_0_r (List.length pre)), step_shift, !app_nil_r. reflexivity.
    + replace ((S (S (S (S (List.length r)))) + 3) / 4)%nat
        with (S ((List.length r + 3) / 4)) .
      2:{ replace (S (S (S (S (List.length r)))) + 3)%nat with ((List.length r + 3) + 1 * 4)%nat by lia.
          rewrite Nat.div_add by lia. lia. }
      cbn [seq map fold_left]. rewrite Nat.add_0_r, <- (Nat.add_0_r (List.length pre)) at 1. rewrite step_shift.
      change (a :: b :: c :: d :: r) with ([a; b; c; d] ++ r).
      rewrite step_cut by reflexivity.
      rewrite <- seq_shift, map_map.
      rewrite (map_ext (fun x => List.length pre + 4 * S x)%nat
                       (fun x => List.length (pre ++ step 0 [a; b; c; d]) + 4 * x)%nat).
      2:{ intro x. rewrite length_app, step_length. cbn. lia. }
      rewrite app_assoc, IH by (cbn in Hl; lia).
      rewrite <- app_assoc. reflexivity.
Qed.

Lemma pixel_loop_concat data :
  Clamped.pixel_loop step data = List.concat (map (step 0) (chunks4 data)).
Proof.
  unfold Clamped.pixel_loop.
  rewrite (map_ext _ (fun k => List.length (@nil Z) + 4 * k)%nat) by reflexivity.
  apply (pixel_fold_concat (List.length data) [] data). lia.
Qed.

End Chunks.

Lemma concat_length (g : list Z -> list Z) (Hg : forall l, List.length (g l) = List.length l) data :
  List.length (List.concat (map g (chunks4 data))) = List.length data.
Proof.
  induction data as [data IH] using (induction_ltof1 _ (@List.length Z)); unfold ltof in IH.
  destruct data as [|a [|b [|c [|d r]]]]; cbn [chunks4 map List.concat];
    rewrite ?length_app, ?Hg, ?app_nil_r; cbn [List.length]; try lia.
  rewrite IH by (cbn; lia). reflexivity.
Qed.

Lemma g_nil (g : list Z -> list Z) (Hg : forall l, List.length (g l) = List.length l) : g [] = [].
Proof. specialize (Hg []). destruct (g []); [reflexivity | discriminate]. Qed.

Lemma concat_chunks_at (g : list Z -> list Z) (Hg : forall l, List.length (g l) = List.length l) k :
  forall data j, (j < 4)%nat ->
  nth_error (List.concat (map g (chunks4 data))) (4 * k + j) =
  nth_error (g (firstn 4 (skipn (4 * k) data))) j.
Proof.
  induction k as [|k IH]; intros data j Hj.
  - rewrite Nat.mul_0_r, Nat.add_0_l, skipn_O.
    destruct data as [|a [|b [|c [|d r]]]]; cbn [chunks4 map List.concat];
      rewrite ?app_nil_r, ?firstn_nil, ?(g_nil g Hg), ?nth_error_nil; try reflexivity.
    change (a :: b :: c :: d :: r) with ([a; b; c; d] ++ r).
    rewrite nth_error_app1 by (rewrite Hg; cbn; lia). reflexivity.
  - replace (4 * S k + j)%nat with (4 + (4 * k + j))%nat by lia.
    replace (4 * S k)%nat with (4 * k + 4)%nat by lia.
    rewrite <- skipn_skipn.
    destruct data as [|a [|b [|c [|d r]]]]; cbn [chunks4 map List.concat skipn];
      rewrite ?app_nil_r, ?skipn_nil, ?firstn_nil, ?(g_nil g Hg), ?nth_error_nil.
    + reflexivity.
    + apply nth_error_None. rewrite Hg. cbn. lia.
    + apply nth_error_None. rewrite Hg. cbn. lia.
    + apply nth_error_None. rewrite Hg. cbn. lia.
    + rewrite nth_error_app2 by (rewrite Hg; cbn; lia).
      rewrite Hg. cbn [List.length]. rewrite <- IH by exact Hj. f_equal. lia.
Qed.

Lemma chunks4_concat (g : list Z -> list Z) (Hg : forall l, List.length (g l) = List.length l) data :
  chunks4 (List.concat (map g (chunks4 data))) = map g (chunks4 data).
Proof.
  induction data as [data IH] using (induction_ltof1 _ (@List.length Z)); unfold ltof in IH.
  destruct data as [|a [|b [|c [|d r]]]]; cbn [chunks4 map List.concat]; rewrite ?app_nil_r.
  - reflexivity.
  - pose proof (Hg [a]) as H. destruct (g [a]) as [|x [|]]; try discriminate; reflexivity.
  - pose proof (Hg [a; b]) as H. destruct (g [a; b]) as [|x [|y [|]]]; try discriminate; reflexivity.
  - pose proof (Hg [a; b; c]) as H.
    destruct (g [a; b; c]) as [|x [|y [|z [|]]]]; try discriminate; reflexivity.
  - pose proof (Hg [a; b; c; d]) as H.
    destruct (g [a; b; c; d]) as [|x [|y [|z [|w [|]]]]]; try discriminate.
    cbn [app chunks4]. rewrite IH by (cbn; lia). reflexivity.
Qed.

Lemma nth_error_chunk (data : list Z) p :
  nth_error data p = nth_error (firstn 4 (skipn (4 * (p / 4)) data)) (p mod 4).
Proof.
  rewrite nth_error_firstn, nth_error_skipn.
  pose proof (Nat.mod_upper_bound p 4 ltac:(lia)).
  destruct (Nat.ltb_spec (p mod 4) 4); [|lia].
  f_equal. apply Nat.div_mod_eq.
Qed.

Lemma hc_shift pre l i :
  highContrast_step (List.length pre + i) (pre ++ l) = pre ++ highContrast_step i l.
Proof.
  unfold highContrast_step; cbn [seq fold_left].
  rewrite <- !Nat.add_assoc.
  repeat first [rewrite nth_error_app_shift | rewrite replace_nth_app].
  reflexivity.
Qed.

Lemma hc_cut w s : List.length w = 4%nat ->
  highContrast_step 0 (w ++ s) = highContrast_step 0 w ++ s.
Proof. intro H. destruct w as [|a [|b [|c [|d [|]]]]]; try discriminate; reflexivity. Qed.

Lemma hc_length i l : List.length (highContrast_step i l) = List.length l.
Proof. unfold highContrast_step; cbn [seq fold_left]. now rewrite !replace_nth_length. Qed.

(** X1: applyHighContrast keeps the length of the pixel data; a colour channel (index mod 4 below 3) becomes 0 if it was below 128 and 255 otherwise, and an alpha channel is kept. *)
Theorem highContrast_pixels data p :
  List.length (applyHighContrast data) = List.length data /\
  nth_error (applyHighContrast data) p =
  option_map (fun v => if (p mod 4 <? 3)%nat then (if v <? 128 then 0 else 255) else v)
    (nth_error data p).
Proof.
  unfold applyHighContrast.
  rewrite (pixel_loop_concat _ hc_shift hc_cut hc_length).
  split; [apply concat_length, hc_length|].
  rewrite (Nat.div_mod_eq p 4) at 1.
  rewrite concat_chunks_at by (apply hc_length || apply Nat.mod_upper_bound; lia).
  rewrite (nth_error_chunk data p).
  pose proof (Nat.mod_upper_bound p 4 ltac:(lia)).
  generalize (firstn 4 (skipn (4 * (p / 4)) data)).
  destruct (p mod 4)%nat as [|[|[|[|]]]]; [| | | |lia]; intros w;
    destruct w as [|a [|b [|c [|d r]]]]; reflexivity.
Qed.

Lemma pixel_loop_idem (step : nat -> list Z -> list Z)
  (Hshift : forall pre l i, step (List.length pre + i)%nat (pre ++ l) = pre ++ step i l)
  (Hcut : forall w s, List.length w = 4%nat -> step 0%nat (w ++ s) = step 0%nat w ++ s)
  (Hlen : forall i l, List.length (step i l) = List.length l)
  (Hidem : forall w, (List.length w <= 4)%nat -> step 0%nat (step 0%nat w) = step 0%nat w) data :
  Clamped.pixel_loop step (Clamped.pixel_loop step data) = Clamped.pixel_loop step data.
Proof.
  rewrite !(pixel_loop_concat step Hshift Hcut Hlen).
  rewrite chunks4_concat by apply Hlen.
  rewrite map_map. f_equal. apply map_ext_in.
  intros w Hw. apply Hidem. clear -Hw.
  induction data as [data IH] using (induction_ltof1 _ (@List.length Z)); unfold ltof in IH.
  destruct data as [|a [|b [|c [|d r]]]]; cbn in Hw;
    repeat (destruct Hw as [<-|Hw]; [cbn; lia|]); try contradiction.
  apply (IH r); [cbn; lia | exact Hw].
Qed.

Lemma clamp_range v : 0 <= Clamped.ToUint8Clamp v <= 255.
Proof.
  unfold Clamped.ToUint8Clamp.
  destruct v as [[num den]|]; [|lia].
  destruct (Z.leb_spec num 0); [lia|].
  destruct (Z.leb_spec (255 * den) num); [lia|].
  assert (0 < den) by nia.
  assert (0 <= num / den) by (apply Z.div_pos; lia).
  assert (num / den < 255) by (apply Z.div_lt_upper_bound; lia).
  destruct (_ <? _); [lia|]. destruct (_ <? _); [lia|]. destruct (Z.even _); lia.
Qed.

Lemma clamp_third s : 0 <= s <= 765 -> Clamped.ToUint8Clamp (Some (s, 3)) = (s + 1) / 3.
Proof.
  intro H. unfold Clamped.ToUint8Clamp.
  destruct (Z.leb_spec s 0); [replace s with 0 by lia; reflexivity|].
  destruct (Z.leb_spec (255 * 3) s); [replace s with 765 by lia; reflexivity|].
  assert (Hq : s = 3 * (s / 3) + s mod 3) by (apply Z.div_mod; lia).
  assert (Hr : 0 <= s mod 3 < 3) by (apply Z.mod_pos_bound; lia).
  assert (E : (s + 1) / 3 = s / 3 + (s mod 3 + 1) / 3).
  { rewrite Hq at 1. replace (3 * (s / 3) + s mod 3 + 1) with ((s mod 3 + 1) + (s / 3) * 3) by lia.
    rewrite Z.div_add by lia. lia. }
  rewrite E. replace (s - s / 3 * 3) with (s mod 3) by lia.
  destruct (Z.ltb_spec 3 (2 * (s mod 3))).
  - replace (s mod 3) with 2 by lia. reflexivity.
  - destruct (Z.ltb_spec (2 * (s mod 3)) 3); [|lia].
    assert (s mod 3 = 0 \/ s mod 3 = 1) as [-> | ->] by lia; cbn; lia.
Qed.

Lemma nth_error_block (data : list Z) k j : (j < 4)%nat ->
  nth_error (firstn 4 (skipn (4 * k) data)) j = nth_error data (4 * k + j).
Proof.
  intro Hj. rewrite nth_error_firstn, nth_error_skipn.
  destruct (Nat.ltb_spec j 4); [reflexivity | lia].
Qed.

Lemma block_length (data : list Z) k : (List.length (firstn 4 (skipn (4 * k) data)) <= 4)%nat.
Proof. rewrite length_firstn. lia. Qed.

Lemma gs_shift pre l i :
  grayscale_step (List.length pre + i) (pre ++ l) = pre ++ grayscale_step i l.
Proof.
  unfold grayscale_step.
  rewrite <- !Nat.add_assoc, !nth_error_app_shift, !replace_nth_app.
  reflexivity.
Qed.

Lemma gs_cut w s : List.length w = 4%nat ->
  grayscale_step 0 (w ++ s) = grayscale_step 0 w ++ s.
Proof. intro H. destruct w as [|a [|b [|c [|d [|]]]]]; try discriminate; reflexivity. Qed.

Lemma gs_length i l : List.length (grayscale_step i l) = List.length l.
Proof. unfold grayscale_step. now rewrite !replace_nth_length. Qed.

Lemma clamp_triple v : 0 <= v <= 255 -> Clamped.ToUint8Clamp (Some (v + v + v, 3)) = v.
Proof.
  intro H. rewrite clamp_third by lia.
  replace (v + v + v + 1) with (1 + v * 3) by lia. rewrite Z.div_add by lia. reflexivity.
Qed.

Lemma gs_idem w : (List.length w <= 4)%nat -> grayscale_step 0 (grayscale_step 0 w) = grayscale_step 0 w.
Proof.
  intro H. destruct w as [|a [|b [|c [|d [|]]]]]; cbn in H; try lia; try reflexivity;
    unfold grayscale_step; cbn [nth_error replace_nth Nat.add Clamped.add option_map];
    rewrite clamp_triple by apply clamp_range; reflexivity.
Qed.

(** X4: applying applyGrayscale twice gives the same data as applying it once. *)
Theorem grayscale_idempotent data :
  applyGrayscale (applyGrayscale data) = applyGrayscale data.
Proof. apply (pixel_loop_idem _ gs_shift gs_cut gs_length gs_idem). Qed.

(** X3: for a pixel whose red, green and blue values lie in 0..255, applyGrayscale writes their rounded mean (r + g + b + 1) / 3 to all three colour channels and keeps the alpha channel. *)
Theorem grayscale_pixel data k r g b :
  nth_error data (4 * k) = Some r ->
  nth_error data (4 * k + 1) = Some g ->
  nth_error data (4 * k + 2) = Some b ->
  0 <= r <= 255 -> 0 <= g <= 255 -> 0 <= b <= 255 ->
  nth_error (applyGrayscale data) (4 * k) = Some ((r + g + b + 1) / 3) /\
  nth_error (applyGrayscale data) (4 * k + 1) = Some ((r + g + b + 1) / 3) /\
  nth_error (applyGrayscale data) (4 * k + 2) = Some ((r + g + b + 1) / 3) /\
  nth_error (applyGrayscale data) (4 * k + 3) = nth_error data (4 * k + 3).
Proof.
  intros H0 H1 H2 Hr Hg Hb.
  assert (Hout : forall j, (j < 4)%nat -> nth_error (applyGrayscale data) (4 * k + j) =
            nth_error (grayscale_step 0 (firstn 4 (skipn (4 * k) data))) j).
  { intros j Hj. unfold applyGrayscale. rewrite (pixel_loop_concat _ gs_shift gs_cut gs_length).
    apply concat_chunks_at; [apply gs_length | exact Hj]. }
  rewrite <- (Nat.add_0_r (4 * k)) in H0 |- * at 1.
  rewrite !Hout by lia.
  rewrite <- !nth_error_block in H0, H1, H2 |- * by lia.
  pose proof (block_length data k). clear Hout.
  destruct (firstn 4 (skipn (4 * k) data)) as [|r' [|g' [|b' [|a' [|]]]]];
    cbn in H0, H1, H2; try discriminate; cbn [List.length] in *; try lia;
    injection H0 as ->; injection H1 as ->; injection H2 as ->;
    unfold grayscale_step; cbn [nth_error replace_nth Nat.add Clamped.add option_map];
    rewrite clamp_third by lia; repeat split.
Qed.

Lemma hc_idem w : (List.length w <= 4)%nat -> highContrast_step 0 (highContrast_step 0 w) = highContrast_step 0 w.
Proof.
  assert (Hf : forall v, (if (if v <? 128 then 0 else 255) <? 128 then 0 else 255) = (if v <? 128 then 0 else 255)).
  { intro v. destruct (v <? 128); reflexivity. }
  intro H. destruct w as [|a [|b [|c [|d [|]]]]]; cbn in H; try lia;
    unfold highContrast_step; cbn; rewrite ?Hf; reflexivity.
Qed.

(** X2: applying applyHighContrast twice gives the same data as applying it once. *)
Theorem highContrast_idempotent data :
  applyHighContrast (applyHighContrast data) = applyHighContrast data.
Proof. apply (pixel_loop_idem _ hc_shift hc_cut hc_length hc_idem). Qed.

Lemma bin_shift th pre l i :
  binarize_step th (List.length pre + i) (pre ++ l) = pre ++ binarize_step th i l.
Proof.
  unfold binarize_step.
  rewrite <- !Nat.add_assoc, !nth_error_app_shift, !replace_nth_app.
  reflexivity.
Qed.

Lemma bin_cut th w s : List.length w = 4%nat ->
  binarize_step th 0 (w ++ s) = binarize_step th 0 w ++ s.
Proof. intro H. destruct w as [|a [|b [|c [|d [|]]]]]; try discriminate; reflexivity. Qed.

Lemma bin_length th i l : List.length (binarize_step th i l) = List.length l.
Proof. unfold binarize_step. now rewrite !replace_nth_length. Qed.

Lemma binarize_chunks data : exists th,
  applyBinarize data =
  List.concat (map (fun w => binarize_step th 0 (grayscale_step 0 w)) (chunks4 data)).
Proof.
  unfold applyBinarize. fold (applyGrayscale data).
  eexists. rewrite (pixel_loop_concat _ (bin_shift _) (bin_cut _) (bin_length _)).
  unfold applyGrayscale at 2 3. rewrite (pixel_loop_concat _ gs_shift gs_cut gs_length).
  rewrite chunks4_concat by apply gs_length. rewrite map_map. reflexivity.
Qed.

(** X6: applyBinarize keeps the length of the data and every alpha channel, and every colour channel it outputs is 0 or 255. *)
Theorem binarize_bitonal data p :
  List.length (applyBinarize data) = List.length data /\
  ((p mod 4 = 3)%nat -> nth_error (applyBinarize data) p = nth_error data p) /\
  ((p mod 4 < 3)%nat -> forall v, nth_error (applyBinarize data) p = Some v -> v = 0 \/ v = 255).
Proof.
  destruct (binarize_chunks data) as [th ->].
  assert (Hg : forall w, List.length (binarize_step th 0 (grayscale_step 0 w)) = List.length w).
  { intro w. now rewrite bin_length, gs_length. }
  split; [apply (concat_length _ Hg)|].
  pose proof (Nat.div_mod_eq p 4) as Hp. pose proof (Nat.mod_upper_bound p 4 ltac:(lia)) as Hj.
  revert Hp Hj. generalize (p / 4)%nat (p mod 4)%nat. intros q j Hp Hj. subst p.
  rewrite concat_chunks_at by (apply Hg || lia).
  rewrite <- (nth_error_block data q j) by lia.
  generalize (firstn 4 (skipn (4 * q) data)).
  destruct j as [|[|[|[|]]]]; [| | | |lia]; intros w;
    (split; [intro; lia || (destruct w as [|a [|b [|c [|d r]]]]; reflexivity) |]);
    (intros Hlt v Hv; try lia);
    destruct w as [|a [|b [|c [|d r]]]]; cbn in Hv; try discriminate;
    unfold binarize_step, grayscale_step in Hv; cbn in Hv;
    repeat match type of Hv with
    | context [match ?x with _ => _ end] => destruct x
    end; injection Hv as <-; auto.
Qed.


Lemma chunks4_in l w : In w (chunks4 l) -> forall x, In x w -> In x l.
Proof.
  induction l as [l IH] using (induction_ltof1 _ (@List.length Z)); unfold ltof in IH.
  destruct l as [|a [|b [|c [|d r]]]]; cbn [chunks4 In]; try tauto; intros [<-|Hw] x Hx;
    try contradiction; try exact Hx.
  - cbn in Hx |- *. tauto.
  - right; right; right; right. apply (IH r); [cbn; lia | exact Hw | exact Hx].
Qed.

Lemma chunks4_full n : forall l w, List.length l = (4 * n)%nat -> In w (chunks4 l) -> List.length w = 4%nat.
Proof.
  induction n as [|n IH]; intros l w Hl Hw.
  - destruct l; [contradiction | cbn in Hl; lia].
  - destruct l as [|a [|b [|c [|d r]]]]; cbn in Hl; try lia.
    destruct Hw as [<-|Hw]; [reflexivity|]. apply (IH r); [lia | exact Hw].
Qed.

Lemma sum_fold n : forall pre l s0, List.length l = (4 * n)%nat ->
  fold_left (fun s i => Clamped.add s (nth_error (pre ++ l) i))
    (map (fun k => List.length pre + 4 * k)%nat (seq 0 n)) (Some s0) =
  Some (s0 + fold_right Z.add 0 (map (hd 0) (chunks4 l))).
Proof.
  induction n as [|n IH]; intros pre l s0 Hl.
  - destruct l; [cbn; f_equal; lia | cbn in Hl; lia].
  - destruct l as [|a [|b [|c [|d r]]]]; cbn in Hl; try lia.
    cbn [seq map fold_left]. rewrite Nat.add_0_r.
    assert (E : nth_error (pre ++ a :: b :: c :: d :: r) (List.length pre) = Some a).
    { pose proof (nth_error_app_shift pre (a :: b :: c :: d :: r) 0) as E.
      rewrite Nat.add_0_r in E. exact E. }
    rewrite E. cbn [Clamped.add].
    rewrite <- seq_shift, map_map.
    rewrite (map_ext (fun x => List.length pre + 4 * S x)%nat
                     (fun x => List.length (pre ++ [a; b; c; d]) + 4 * x)%nat).
    2:{ intro x. rewrite length_app. cbn. lia. }
    change (a :: b :: c :: d :: r) with ([a; b; c; d] ++ r).
    rewrite app_assoc, IH by lia.
    cbn [chunks4 app map fold_right hd]. f_equal. lia.
Qed.

Lemma div4_exact n : ((4 * n + 3) / 4)%nat = n.
Proof.
  replace (4 * n + 3)%nat with (3 + n * 4)%nat by lia.
  rewrite Nat.div_add by lia. reflexivity.
Qed.

Lemma sum_fold0 n l : List.length l = (4 * n)%nat ->
  fold_left (fun s i => Clamped.add s (nth_error l i))
    (map (fun k => 4 * k)%nat (seq 0 ((List.length l + 3) / 4))) (Some 0) =
  Some (fold_right Z.add 0 (map (hd 0) (chunks4 l))).
Proof.
  intro Hl. rewrite Hl, div4_exact.
  pose proof (sum_fold n [] l 0 Hl) as H. cbn [app List.length] in H.
  rewrite (map_ext (fun k => 4 * k)%nat (fun k => 0 + 4 * k)%nat) by reflexivity.
  rewrite H. reflexivity.
Qed.

Lemma gs_full r g b a : 0 <= r <= 255 -> 0 <= g <= 255 -> 0 <= b <= 255 ->
  grayscale_step 0 [r; g; b; a] =
  [(r + g + b + 1) / 3; (r + g + b + 1) / 3; (r + g + b + 1) / 3; a].
Proof.
  intros. unfold grayscale_step; cbn [nth_error replace_nth Nat.add Clamped.add option_map].
  rewrite clamp_third by lia. reflexivity.
Qed.

Lemma in_block (data : list Z) m x : In x (firstn 4 (skipn m data)) -> In x data.
Proof.
  intro H. rewrite <- (firstn_skipn m data). apply in_or_app. right.
  rewrite <- (firstn_skipn 4 (skipn m data)). apply in_or_app. left. exact H.
Qed.

Lemma binarize_pixel_at data n k :
  List.length data = (4 * n)%nat ->
  Forall (fun v => 0 <= v <= 255) data ->
  (k < n)%nat ->
  let t := if pixel_gray (firstn 4 (skipn (4 * k) data)) * Z.of_nat n
              <? fold_right Z.add 0 (map pixel_gray (chunks4 data)) then 0 else 255 in
  nth_error (applyBinarize data) (4 * k) = Some t /\
  nth_error (applyBinarize data) (4 * k + 1) = Some t /\
  nth_error (applyBinarize data) (4 * k + 2) = Some t /\
  nth_error (applyBinarize data) (4 * k + 3) = nth_error data (4 * k + 3).
Proof.
  intros Hlen Hb Hk t.
  rewrite <- (Nat.add_0_r (4 * k)) at 1.
  rewrite Forall_forall in Hb.
  assert (Hfull : forall w, In w (chunks4 data) -> grayscale_step 0 w =
            [pixel_gray w; pixel_gray w; pixel_gray w; nth 3 w 0]).
  { intros w Hw. pose proof (chunks4_full n data w Hlen Hw) as Hl.
    destruct w as [|r [|g [|b [|a [|]]]]]; try discriminate.
    pose proof (chunks4_in data _ Hw) as Hi. cbn [In] in Hi.
    apply gs_full; apply Hb, Hi; tauto. }
  assert (Hd1 : applyGrayscale data = List.concat (map (grayscale_step 0) (chunks4 data)))
    by apply (pixel_loop_concat _ gs_shift gs_cut gs_length).
  assert (Hl1 : List.length (applyGrayscale data) = (4 * n)%nat)
    by (rewrite Hd1, concat_length by apply gs_length; exact Hlen).
  assert (Hc1 : chunks4 (applyGrayscale data) = map (grayscale_step 0) (chunks4 data))
    by (rewrite Hd1; apply chunks4_concat, gs_length).
  assert (Hsum : fold_right Z.add 0 (map (hd 0) (chunks4 (applyGrayscale data))) =
                 fold_right Z.add 0 (map pixel_gray (chunks4 data))).
  { rewrite Hc1, map_map. f_equal. apply map_ext_in. intros w Hw. rewrite (Hfull w Hw). reflexivity. }
  unfold applyBinarize. fold (applyGrayscale data). cbv zeta.
  rewrite (sum_fold0 n _ Hl1), Hsum, Hl1.
  destruct (Z.eqb_spec (Z.of_nat (4 * n)) 0); [lia|].
  rewrite (pixel_loop_concat _ (bin_shift _) (bin_cut _) (bin_length _)), Hc1, map_map.
  assert (Hg : forall w, List.length (binarize_step (Some (4 * fold_right Z.add 0 (map pixel_gray (chunks4 data)), Z.of_nat (4 * n))) 0 (grayscale_step 0 w)) = List.length w).
  { intro w. now rewrite bin_length, gs_length. }
  rewrite !(concat_chunks_at _ Hg) by lia.
  rewrite <- (nth_error_block data k 3) by lia.
  assert (Hw : List.length (firstn 4 (skipn (4 * k) data)) = 4%nat).
  { rewrite length_firstn, length_skipn. lia. }
  assert (Hi : forall x, In x (firstn 4 (skipn (4 * k) data)) -> 0 <= x <= 255)
    by (intros x Hx; apply Hb, (in_block _ _ _ Hx)).
  unfold t. clear t.
  destruct (firstn 4 (skipn (4 * k) data)) as [|r [|g [|b [|a [|]]]]]; try discriminate.
  cbn [In] in Hi.
  rewrite gs_full by (apply Hi; tauto).
  unfold binarize_step. cbn [nth_error replace_nth Nat.add pixel_gray].
  set (v := (r + g + b + 1) / 3). set (S := fold_right Z.add 0 _).
  replace (v * Z.of_nat (4 * n) <? 4 * S) with (v * Z.of_nat n <? S).
  - repeat split.
  - rewrite Nat2Z.inj_mul.
    destruct (Z.ltb_spec (v * Z.of_nat n) S), (Z.ltb_spec (v * (Z.of_nat 4 * Z.of_nat n)) (4 * S));
      reflexivity || (cbn [Z.of_nat Pos.of_succ_nat] in *; lia).
Qed.

(** X5: on data of n whole pixels with values in 0..255, applyBinarize sets the three colour channels of pixel k to 0 when its gray value times n is below the sum of all gray values (it is darker than the mean) and to 255 otherwise, and keeps its alpha channel. *)
Theorem binarize_pixel data n k :
  List.length data = (4 * n)%nat ->
  Forall (fun v => 0 <= v <= 255) data ->
  (k < n)%nat ->
  let t := if pixel_gray (firstn 4 (skipn (4 * k) data)) * Z.of_nat n
              <? fold_right Z.add 0 (map pixel_gray (chunks4 data)) then 0 else 255 in
  nth_error (applyBinarize data) (4 * k) = Some t /\
  nth_error (applyBinarize data) (4 * k + 1) = Some t /\
  nth_error (applyBinarize data) (4 * k + 2) = Some t /\
  nth_error (applyBinarize data) (4 * k + 3) = nth_error data (4 * k + 3).
Proof. exact (binarize_pixel_at data n k). Qed.

Lemma nth_chunks4 k : forall l, nth k (chunks4 l) [] = firstn 4 (skipn (4 * k) l).
Proof.
  induction k as [|k IH]; intros l.
  - destruct l as [|a [|b [|c [|d r]]]]; reflexivity.
  - replace (4 * S k)%nat with (4 * k + 4)%nat by lia. rewrite <- skipn_skipn.
    destruct l as [|a [|b [|c [|d r]]]]; cbn [chunks4 nth skipn];
      try (destruct k; cbn; rewrite ?skipn_nil; reflexivity). apply IH.
Qed.

Lemma sum_le_max xs m : (forall y, In y xs -> y <= m) ->
  fold_right Z.add 0 xs <= Z.of_nat (List.length xs) * m.
Proof.
  induction xs as [|x xs IH]; intro H; cbn [fold_right List.length]; [lia|].
  rewrite Nat2Z.inj_succ.
  assert (x <= m) by (apply H; left; reflexivity).
  assert (fold_right Z.add 0 xs <= Z.of_nat (List.length xs) * m) by (apply IH; intros; apply H; right; auto).
  lia.
Qed.

Lemma max_index xs : xs <> [] ->
  exists k, (k < List.length xs)%nat /\ forall y, In y xs -> y <= nth k xs 0.
Proof.
  induction xs as [|x xs IH]; intro Hne; [congruence|].
  destruct xs as [|x' xs'].
  - exists 0%nat. split; [cbn; lia|]. intros y [<-|[]]. cbn; lia.
  - destruct IH as [k [Hk Hm]]; [discriminate|].
    destruct (Z.leb_spec (nth k (x' :: xs') 0) x).
    + exists 0%nat. split; [cbn; lia|]. intros y [<-|Hy]; [cbn; lia|].
      specialize (Hm y Hy). change (nth 0 (x :: x' :: xs') 0) with x. lia.
    + exists (S k). split; [cbn in *; lia|].
      change (nth (S k) (x :: x' :: xs') 0) with (nth k (x' :: xs') 0).
      intros y [<-|Hy]; [lia|auto].
Qed.

Lemma chunks4_length n : forall l, List.length l = (4 * n)%nat -> List.length (chunks4 l) = n.
Proof.
  induction n as [|n IH]; intros l Hl.
  - destruct l; [reflexivity | cbn in Hl; lia].
  - destruct l as [|a [|b [|c [|d r]]]]; cbn in Hl; try lia.
    cbn [chunks4 List.length]. f_equal. apply IH. lia.
Qed.

(** X7: on data of at least one whole pixel with values in 0..255, applyBinarize makes some pixel white (255 on all three colour channels), so the output is never all black. *)
Theorem binarize_not_all_black data n :
  List.length data = (4 * n)%nat ->
  Forall (fun v => 0 <= v <= 255) data ->
  (0 < n)%nat ->
  exists k, (k < n)%nat /\
    nth_error (applyBinarize data) (4 * k) = Some 255 /\
    nth_error (applyBinarize data) (4 * k + 1) = Some 255 /\
    nth_error (applyBinarize data) (4 * k + 2) = Some 255.
Proof.
  intros Hlen Hb Hn.
  set (xs := map pixel_gray (chunks4 data)).
  assert (Hxs : List.length xs = n) by (unfold xs; rewrite length_map; apply chunks4_length, Hlen).
  destruct (max_index xs) as [k [Hk Hm]]; [intro E; rewrite E in Hxs; cbn in Hxs; lia|].
  rewrite Hxs in Hk. exists k. split; [exact Hk|].
  destruct (binarize_pixel_at data n k Hlen Hb Hk) as [H0 [H1 [H2 _]]].
  assert (Hg : pixel_gray (firstn 4 (skipn (4 * k) data)) = nth k xs 0).
  { unfold xs. rewrite <- nth_chunks4. change 0 with (pixel_gray []). rewrite map_nth. reflexivity. }
  pose proof (sum_le_max xs _ Hm) as Hs. rewrite Hxs in Hs. fold xs in H0, H1, H2.
  rewrite Hg in H0, H1, H2.
  destruct (Z.ltb_spec (nth k xs 0 * Z.of_nat n) (fold_right Z.add 0 xs)); [lia|].
  auto.
Qed.

Lemma nth_error_replace_nth_neq {A} i p (v : A) l : i <> p ->
  nth_error (replace_nth i v l) p = nth_error l p.
Proof.
  revert i p; induction l as [|a l IH]; intros i p H; [destruct i; reflexivity|].
  destruct i, p; cbn; try reflexivity; [congruence|]. apply IH. congruence.
Qed.

Lemma nth_error_replace_nth_eq {A} p (v : A) l : (p < List.length l)%nat ->
  nth_error (replace_nth p v l) p = Some v.
Proof.
  revert p; induction l as [|a l IH]; intros p H; cbn in H; [lia|].
  destruct p; cbn; [reflexivity|]. apply IH. lia.
Qed.

Section Writes.
Variable f : nat -> Z.

Lemma writes_length l d : List.length (writes f l d) = List.length d.
Proof.
  revert d; induction l as [|i l IH]; intro d; [reflexivity|].
  cbn. unfold writes in IH. rewrite IH. apply replace_nth_length.
Qed.

Lemma writes_other l d p : ~ In p l -> nth_error (writes f l d) p = nth_error d p.
Proof.
  revert d; induction l as [|i l IH]; intros d Hp; [reflexivity|].
  cbn. unfold writes in IH. rewrite IH by (intro; apply Hp; right; auto).
  apply nth_error_replace_nth_neq. intro; apply Hp; left; auto.
Qed.

Lemma writes_in l d p : In p l -> (p < List.length d)%nat -> nth_error (writes f l d) p = Some (f p).
Proof.
  revert d; induction l as [|i l IH]; intros d Hp Hl; [contradiction|].
  cbn. unfold writes in IH.
  destruct (in_dec Nat.eq_dec p l) as [Hin|Hin].
  - apply IH; [exact Hin | rewrite replace_nth_length; exact Hl].
  - destruct Hp as [<-|Hp]; [|contradiction].
    pose proof (writes_other l (replace_nth i (f i) d) i Hin) as E. unfold writes in E.
    rewrite E. apply nth_error_replace_nth_eq. exact Hl.
Qed.

End Writes.


Lemma fold_left_flat_map {A B C} (g : A -> B -> A) (h : C -> list B) (l : list C) a :
  fold_left g (flat_map h l) a = fold_left (fun a y => fold_left g (h y) a) l a.
Proof.
  revert a; induction l as [|y l IH]; intro a; [reflexivity|].
  cbn. rewrite fold_left_app. apply IH.
Qed.

Lemma fold_left_ext' {A B} (f g : A -> B -> A) l a :
  (forall a y, f a y = g a y) -> fold_left f l a = fold_left g l a.
Proof. intro H. revert a; induction l as [|y l IH]; intro a; [reflexivity|]. cbn. rewrite H. apply IH. Qed.

Lemma fold_left_map' {A B C} (g : A -> B -> A) (h : C -> B) l a :
  fold_left g (map h l) a = fold_left (fun a c => g a (h c)) l a.
Proof. revert a; induction l as [|y l IH]; intro a; [reflexivity|]. cbn. apply IH. Qed.

Lemma applySharpen_writes width height data :
  applySharpen width height data =
  writes (sharpen_value data width) (sharpen_indices width height) data.
Proof.
  unfold applySharpen, writes, sharpen_indices.
  rewrite fold_left_flat_map. apply fold_left_ext'. intros d y.
  rewrite fold_left_flat_map. apply fold_left_ext'. intros d' x.
  rewrite fold_left_map'. reflexivity.
Qed.

Lemma in_sharpen_indices width height p :
  In p (sharpen_indices width height) <->
  exists y x c, (1 <= y /\ y + 2 <= height)%nat /\ (1 <= x /\ x + 2 <= width)%nat /\
    (c < 3)%nat /\ p = ((y * width + x) * 4 + c)%nat.
Proof.
  unfold sharpen_indices. rewrite in_flat_map. split.
  - intros [y [Hy Hp]]. rewrite in_flat_map in Hp. destruct Hp as [x [Hx Hp]].
    rewrite in_map_iff in Hp. destruct Hp as [c [<- Hc]].
    rewrite in_seq in Hy, Hx, Hc. exists y, x, c. lia.
  - intros [y [x [c [Hy [Hx [Hc ->]]]]]]. exists y. split; [rewrite in_seq; lia|].
    rewrite in_flat_map. exists x. split; [rewrite in_seq; lia|].
    rewrite in_map_iff. exists c. split; [reflexivity | rewrite in_seq; lia].
Qed.

Lemma coord_inj width y x c y' x' c' :
  (x < width)%nat -> (x' < width)%nat -> (c < 4)%nat -> (c' < 4)%nat ->
  ((y * width + x) * 4 + c = (y' * width + x') * 4 + c')%nat ->
  y = y' /\ x = x' /\ c = c'.
Proof.
  intros Hx Hx' Hc Hc' E.
  assert (Hyy : y = y').
  { destruct (Nat.lt_total y y') as [H|[H|H]]; [|exact H|].
    - assert (y * width + width <= y' * width)%nat by nia. lia.
    - assert (y' * width + width <= y * width)%nat by nia. lia. }
  subst y'. split; [reflexivity | lia].
Qed.

Lemma clamp_int z : 0 <= z <= 255 -> Clamped.ToUint8Clamp (Some (z, 1)) = z.
Proof.
  intro H. unfold Clamped.ToUint8Clamp.
  destruct (Z.leb_spec z 0); [lia|]. destruct (Z.leb_spec (255 * 1) z); [lia|].
  rewrite Z.div_1_r. replace (2 * (z - z * 1)) with 0 by lia. reflexivity.
Qed.

(** X8: applySharpen keeps the length of the data, and it keeps every alpha channel and every channel of a pixel on the left, right, top or bottom border of the image. *)
Theorem sharpen_border width height data x y c :
  (x < width)%nat -> (c < 4)%nat ->
  (x = 0 \/ x + 1 = width \/ y = 0 \/ height <= y + 1 \/ c = 3)%nat ->
  List.length (applySharpen width height data) = List.length data /\
  nth_error (applySharpen width height data) ((y * width + x) * 4 + c) =
  nth_error data ((y * width + x) * 4 + c).
Proof.
  intros Hx Hc Hb. rewrite applySharpen_writes. split; [apply writes_length|].
  apply writes_other. rewrite in_sharpen_indices.
  intros [y' [x' [c' [Hy' [Hx' [Hc' E]]]]]].
  apply coord_inj in E; lia.
Qed.

Lemma nth_error_some (data : list Z) q : (q < List.length data)%nat ->
  nth_error data q = Some (nth q data 0).
Proof. apply nth_error_nth'. Qed.

Lemma sharpen_interior_at width height data x y c :
  List.length data = (4 * width * height)%nat ->
  (1 <= x /\ x + 2 <= width)%nat -> (1 <= y /\ y + 2 <= height)%nat -> (c < 3)%nat ->
  let p := ((y * width + x) * 4 + c)%nat in
  nth_error (applySharpen width height data) p =
  Some (Z.min 255 (Z.max 0 (5 * nth p data 0 - nth (p - width * 4) data 0
          - nth (p - 4) data 0 - nth (p + 4) data 0 - nth (p + width * 4) data 0))).
Proof.
  intros Hl Hx Hy Hc p.
  assert (Hp : (p + width * 4 < List.length data)%nat).
  { rewrite Hl. unfold p. assert (y * width + width <= (height - 1) * width)%nat by nia. nia. }
  rewrite applySharpen_writes, writes_in.
  - unfold sharpen_value.
    rewrite !nth_error_some by lia. cbn [option_map Clamped.sub]. f_equal. apply clamp_int. lia.
  - apply in_sharpen_indices. exists y, x, c. lia.
  - lia.
Qed.

(** X9: on data of width * height pixels, applySharpen sets each colour channel of an interior pixel to 5 times its value less the values of the same channel in the four neighbours, clamped to 0..255, all read from the input. *)
Theorem sharpen_interior width height data x y c :
  List.length data = (4 * width * height)%nat ->
  (1 <= x /\ x + 2 <= width)%nat -> (1 <= y /\ y + 2 <= height)%nat -> (c < 3)%nat ->
  let p := ((y * width + x) * 4 + c)%nat in
  nth_error (applySharpen width height data) p =
  Some (Z.min 255 (Z.max 0 (5 * nth p data 0 - nth (p - width * 4) data 0
          - nth (p - 4) data 0 - nth (p + 4) data 0 - nth (p + width * 4) data 0))).
Proof. exact (sharpen_interior_at width height data x y c). Qed.

(** X10: applySharpen leaves an image whose values are all the same value in 0..255 unchanged. *)
Theorem sharpen_uniform width height data v :
  List.length data = (4 * width * height)%nat ->
  Forall (fun u => u = v) data -> 0 <= v <= 255 ->
  applySharpen width height data = data.
Proof.
  intros Hl Hu Hv. rewrite Forall_forall in Hu.
  assert (Hd : forall q, (q < List.length data)%nat -> nth q data 0 = v)
    by (intros q Hq; apply Hu, nth_In, Hq).
  apply nth_error_ext. intro p.
  destruct (in_dec Nat.eq_dec p (sharpen_indices width height)) as [Hin|Hin].
  - pose proof Hin as Hin'. apply in_sharpen_indices in Hin' as [y [x [c [Hy [Hx [Hc ->]]]]]].
    rewrite (sharpen_interior_at width height data x y c Hl Hx Hy Hc).
    cbv zeta.
    assert (Hp : (((y * width + x) * 4 + c) + width * 4 < List.length data)%nat).
    { rewrite Hl. assert (y * width + width <= (height - 1) * width)%nat by nia. nia. }
    rewrite nth_error_some by lia. rewrite !Hd by lia. f_equal. lia.
  - rewrite applySharpen_writes. apply writes_other, Hin.
Qed.

Lemma hexs_app l1 l2 : hexs (l1 ++ l2) = (hexs l1 ++ hexs l2)%string.
Proof. induction l1 as [|x l1 IH]; cbn; [reflexivity|]. f_equal. exact IH. Qed.


Lemma bytesToHexString_hexs bs :
  bytesToHexString bs = hexs (flat_map byte_digits bs).
Proof.
  induction bs as [|b bs IH]; [reflexivity|].
  cbn [bytesToHexString flat_map]. rewrite hexs_app, IH. reflexivity.
Qed.

Lemma byte_range b : 0 <= Z.of_N (Byte.to_N b) < 256.
Proof.
  pose proof (Byte.to_N_bounded b) as H. split; [lia|].
  change 256 with (Z.of_N 256). apply N2Z.inj_lt. lia.
Qed.

Lemma ToUint8_byte b : JS.ToUint8 (Some (Z.of_N (Byte.to_N b))) = b.
Proof.
  unfold JS.ToUint8. rewrite Z.mod_small by apply byte_range.
  rewrite N2Z.id, Byte.of_to_N. reflexivity.
Qed.

Lemma byte_pairs_digits bs : byte_pairs (flat_map byte_digits bs) = bs.
Proof.
  induction bs as [|b bs IH]; [reflexivity|].
  cbn [flat_map byte_digits app byte_pairs]. rewrite IH. f_equal.
  pose proof (byte_range b).
  rewrite Z.mul_comm, <- Z.div_mod by lia. apply ToUint8_byte.
Qed.

Lemma byte_digits_hex bs : Forall hex_digit (flat_map byte_digits bs) /\
  List.length (flat_map byte_digits bs) = (2 * List.length bs)%nat.
Proof.
  induction bs as [|b bs [IH1 IH2]]; [split; [constructor | reflexivity]|].
  pose proof (byte_range b). cbn [flat_map byte_digits app List.length].
  split; [|lia].
  constructor; [unfold hex_digit; split; [apply Z.div_pos | apply Z.div_lt_upper_bound]; lia|].
  constructor; [unfold hex_digit; apply Z.mod_pos_bound; lia | exact IH1].
Qed.

(** X11: bytesToHexString writes two hex digits per byte, and parsing the two digits at position 2 i in base 16 gives back byte i. *)
Theorem bytesToHexString_round_trip bs :
  String.length (bytesToHexString bs) = (2 * List.length bs)%nat /\
  map (fun i => JS.ToUint8 (JS.parseInt (substring (i * 2) 2 (bytesToHexString bs)) 16))
      (seq 0 (List.length bs)) = bs.
Proof.
  destruct (byte_digits_hex bs) as [Hd Hl].
  rewrite bytesToHexString_hexs, hexs_length. split; [exact Hl|].
  rewrite convert_pairs by assumption. apply byte_pairs_digits.
Qed.

Lemma hex_digits_length f n acc :
  (String.length acc <= String.length (BigIntJS.hex_digits f n acc))%nat.
Proof.
  revert n acc; induction f as [|f IH]; intros n acc; cbn [BigIntJS.hex_digits]; [lia|].
  destruct (n <? 16); [cbn; lia|]. etransitivity; [|apply IH]. cbn; lia.
Qed.

Lemma toString16_nonempty n : (1 <= String.length (BigIntJS.toString16 n))%nat.
Proof.
  unfold BigIntJS.toString16, BigIntJS.hex_fuel.
  destruct (n <? 0); cbn [String.length]; [lia|].
  cbn [BigIntJS.hex_digits]. destruct (n <? 16); [cbn; lia|].
  etransitivity; [|apply hex_digits_length]. cbn; lia.
Qed.

Lemma convert_nonempty raw bs : convertBase10ToByteArray raw = Some bs -> bs <> [].
Proof.
  unfold convertBase10ToByteArray.
  destruct (BigIntJS.StringToBigInt raw) as [n|]; [|discriminate].
  intros E; injection E as <-.
  pose proof (toString16_nonempty n) as H.
  set (h := BigIntJS.toString16 n) in *.
  assert (H2 : (1 <= Nat.div (String.length (if Nat.odd (String.length h) then String "0" h else h)) 2)%nat).
  { destruct (Nat.odd (String.length h)) eqn:E; cbn [String.length].
    - apply Nat.div_le_lower_bound; lia.
    - apply Nat.div_le_lower_bound; [lia|].
      destruct (String.length h) as [|[|m]]; [lia| discriminate |lia]. }
  cbv zeta. intros E. apply (f_equal (@List.length _)) in E.
  rewrite length_map, length_seq in E.
  assert (Hf : forall k, k = 0%nat -> (1 <= k)%nat -> False) by lia.
  exact (Hf _ E H2).
Qed.

(** X12: processSecureQRData fails exactly when the decimal string cannot be converted to bytes, or when inflating the bytes succeeds with an empty result; a failed inflate falls back to the raw bytes and never fails the pipeline. *)
Theorem processSecureQRData_none_iff inflate dp now rawData :
  processSecureQRData inflate dp now rawData = None <->
  convertBase10ToByteArray rawData = None \/
  exists bs, convertBase10ToByteArray rawData = Some bs /\ inflate bs = Some [].
Proof.
  unfold processSecureQRData.
  destruct (convertBase10ToByteArray rawData) as [bs|] eqn:Ec.
  2:{ split; [tauto | reflexivity]. }
  rewrite extract_none_iff. unfold decompressData.
  pose proof (convert_nonempty _ _ Ec) as Hne.
  destruct (inflate bs) as [out|] eqn:Ei; split.
  - intros ->. right. exists bs. auto.
  - intros [H|[bs' [H1 H2]]]; [discriminate|]. injection H1 as <-. congruence.
  - intros ->. contradiction.
  - intros [H|[bs' [H1 H2]]]; [discriminate|]. injection H1 as <-. congruence.
Qed.



Lemma civil_split z0 :
  let z := z0 + 719468 in
  let doe := z mod 146097 in
  DateJS.civil_from_days z0 =
  ((if m_of (mp_of (doy_of doe)) <=? 2 then yoe_of doe + 1 else yoe_of doe) + z / 146097 * 400,
   m_of (mp_of (doy_of doe)), d_of (doy_of doe)).
Proof.
  intros z doe. unfold DateJS.civil_from_days.
  replace (z0 + 719468 - (z0 + 719468) / 146097 * 146097) with doe
    by (unfold doe, z; rewrite Z.mod_eq by lia; ring).
  fold z. unfold m_of, d_of, mp_of, doy_of, yoe_of.
  destruct (_ <=? 2); f_equal; f_equal; ring.
Qed.

Lemma yoe_mono a b : 0 <= a -> a <= b -> b <= 146096 -> yoe_of a <= yoe_of b.
Proof. intros. unfold yoe_of. apply Z.div_le_mono; [lia|]. Z.div_mod_to_equations. lia. Qed.

Lemma doy_range a : 0 <= a <= 146096 -> 0 <= doy_of a <= 365.
Proof. intros H. unfold doy_of, yoe_of. Z.div_mod_to_equations. lia. Qed.

Lemma yoe_range a : 0 <= a <= 146096 -> 0 <= yoe_of a <= 399.
Proof. intros H. unfold yoe_of. Z.div_mod_to_equations. lia. Qed.

Lemma mp_range t : 0 <= t <= 365 -> 0 <= mp_of t <= 11.
Proof. intros H. unfold mp_of. Z.div_mod_to_equations. lia. Qed.

Lemma mp_d_mono s t : 0 <= s <= t -> t <= 365 ->
  mp_of s < mp_of t \/ (mp_of s = mp_of t /\ d_of s <= d_of t).
Proof.
  intros Hs Ht. assert (mp_of s <= mp_of t) by (unfold mp_of; apply Z.div_le_mono; lia).
  destruct (Z.eq_dec (mp_of s) (mp_of t)) as [E|E]; [right|left; lia].
  split; [exact E|]. unfold d_of. rewrite E. lia.
Qed.


Lemma m_of_cases mp : 0 <= mp <= 11 ->
  (mp < 10 /\ m_of mp = mp + 3) \/ (10 <= mp /\ m_of mp = mp - 9).
Proof. intros H. unfold m_of. destruct (Z.ltb_spec mp 10); lia. Qed.

Lemma civil_doe_mono a b : 0 <= a -> a <= b -> b <= 146096 ->
  lex3 (Y0_of a, m_of (mp_of (doy_of a)), d_of (doy_of a))
       (Y0_of b, m_of (mp_of (doy_of b)), d_of (doy_of b)).
Proof.
  intros Ha Hab Hb. unfold lex3, Y0_of.
  pose proof (yoe_mono a b Ha Hab Hb) as Hy.
  pose proof (doy_range a ltac:(lia)) as Hda. pose proof (doy_range b ltac:(lia)) as Hdb.
  pose proof (mp_range _ Hda) as Hma. pose proof (mp_range _ Hdb) as Hmb.
  destruct (m_of_cases _ Hma) as [[Ca Ea]|[Ca Ea]], (m_of_cases _ Hmb) as [[Cb Eb]|[Cb Eb]];
    rewrite Ea, Eb;
    destruct (Z.leb_spec (mp_of (doy_of a) + 3) 2), (Z.leb_spec (mp_of (doy_of a) - 9) 2),
      (Z.leb_spec (mp_of (doy_of b) + 3) 2), (Z.leb_spec (mp_of (doy_of b) - 9) 2); try lia;
  (destruct (Z.eq_dec (yoe_of a) (yoe_of b)) as [Ey|Ey]; [|lia]);
  (assert (doy_of a <= doy_of b) by (unfold doy_of; rewrite Ey; lia));
  destruct (mp_d_mono (doy_of a) (doy_of b) ltac:(lia) ltac:(lia)); lia.
Qed.

Lemma civil_mono z1 z2 : z1 <= z2 -> lex3 (DateJS.civil_from_days z1) (DateJS.civil_from_days z2).
Proof.
  intros H. rewrite !civil_split. cbv zeta. fold (Y0_of ((z1 + 719468) mod 146097)).
  fold (Y0_of ((z2 + 719468) mod 146097)).
  set (e1 := (z1 + 719468) / 146097). set (e2 := (z2 + 719468) / 146097).
  set (a := (z1 + 719468) mod 146097). set (b := (z2 + 719468) mod 146097).
  assert (Ha : 0 <= a < 146097) by (apply Z.mod_pos_bound; lia).
  assert (Hb : 0 <= b < 146097) by (apply Z.mod_pos_bound; lia).
  assert (Ea : z1 + 719468 = 146097 * e1 + a) by (apply Z.div_mod; lia).
  assert (Eb : z2 + 719468 = 146097 * e2 + b) by (apply Z.div_mod; lia).
  assert (He : e1 <= e2) by (apply Z.div_le_mono; lia).
  destruct (Z.eq_dec e1 e2) as [Ee|Ee].
  - assert (a <= b) by (rewrite Ee in Ea; lia).
    pose proof (civil_doe_mono a b ltac:(lia) ltac:(lia) ltac:(lia)) as M.
    unfold lex3 in *. rewrite Ee. lia.
  - assert (R : forall c, 0 <= c <= 146096 ->
              0 <= Y0_of c <= 400 /\ (Y0_of c = 0 -> 3 <= m_of (mp_of (doy_of c))) /\
              (Y0_of c = 400 -> m_of (mp_of (doy_of c)) <= 2)).
    { intros c Hc. pose proof (yoe_range c Hc). pose proof (doy_range c Hc) as Hd.
      pose proof (mp_range _ Hd) as Hm. unfold Y0_of.
      destruct (m_of_cases _ Hm) as [[C E]|[C E]]; rewrite E;
        destruct (Z.leb_spec (mp_of (doy_of c) + 3) 2), (Z.leb_spec (mp_of (doy_of c) - 9) 2); lia. }
    destruct (R a ltac:(lia)) as (Ra1 & Ra2 & Ra3). destruct (R b ltac:(lia)) as (Rb1 & Rb2 & Rb3).
    unfold lex3. lia.
Qed.

Lemma calendar_mono t1 t2 : t1 <= t2 ->
  DateJS.getFullYear t1 < DateJS.getFullYear t2 \/
  (DateJS.getFullYear t1 = DateJS.getFullYear t2 /\
   (DateJS.getMonth t1 < DateJS.getMonth t2 \/
    (DateJS.getMonth t1 = DateJS.getMonth t2 /\ DateJS.getDate t1 <= DateJS.getDate t2))).
Proof.
  intros H. unfold DateJS.getFullYear, DateJS.getMonth, DateJS.getDate.
  assert (Hd : DateJS.Day t1 <= DateJS.Day t2)
    by (unfold DateJS.Day, DateJS.msPerDay; apply Z.div_le_mono; lia).
  pose proof (civil_mono _ _ Hd) as M.
  destruct (DateJS.civil_from_days (DateJS.Day t1)) as [[y1 m1] d1],
    (DateJS.civil_from_days (DateJS.Day t2)) as [[y2 m2] d2].
  cbn [fst snd]. unfold lex3 in M. lia.
Qed.

Lemma calculateAge_nonneg now dob : dob <= now -> 0 <= calculateAge now dob.
Proof.
  intros H. pose proof (calendar_mono _ _ H) as M. unfold calculateAge.
  destruct (Z.ltb_spec (DateJS.getMonth now - DateJS.getMonth dob) 0),
    (Z.eqb_spec (DateJS.getMonth now - DateJS.getMonth dob) 0),
    (Z.ltb_spec (DateJS.getDate now) (DateJS.getDate dob)); cbn [orb andb]; lia.
Qed.

Lemma parseDateOfBirth_le dp now s dob : parseDateOfBirth dp now s = Some dob -> dob <= now.
Proof.
  unfold parseDateOfBirth. destruct (dob_of_string dp _) as [d|]; [|discriminate].
  destruct (Z.ltb_spec now d); [discriminate|].
  destruct (minDate now) as [m|]; [destruct (d <? m); [discriminate|]|];
    intros E; injection E as <-; exact H.
Qed.

(** X13: in a record extracted by extractDataFields, isAdult is present exactly when age is, and is then age >= 18; an age is only present when the date of birth parsed to a date, it is calculateAge of that date, and it is not negative. *)
Theorem record_age dp now buf r :
  extractDataFields dp now buf = Some r ->
  isAdult r = option_map (fun a => 18 <=? a) (age r) /\
  (forall a, age r = Some a ->
     exists s dob, dateOfBirth r = Some s /\ parseDateOfBirth dp now s = Some dob /\
       a = calculateAge now dob /\ 0 <= a).
Proof.
  unfold extractDataFields.
  destruct (readFieldValues buf) as [|f0 fr]; [discriminate|].
  lazymatch goal with
  | |- context [binary_tail ?a ?b ?c ?d] => destruct (binary_tail a b c d) as [[mh eh] ph]
  end.
  lazymatch goal with
  | |- context [age_fields ?a ?b ?c] => destruct (age_fields a b c) as [ag ad] eqn:Ea
  end.
  intros H; injection H as <-. cbn [age isAdult dateOfBirth].
  unfold age_fields in Ea.
  lazymatch type of Ea with
  | match ?o with _ => _ end = _ => destruct o as [s|] eqn:Eo
  end; [|injection Ea as <- <-; split; [reflexivity | discriminate]].
  destruct (String.eqb s EmptyString); [injection Ea as <- <-; split; [reflexivity | discriminate]|].
  destruct (parseDateOfBirth dp now s) as [d|] eqn:Ep;
    [|injection Ea as <- <-; split; [reflexivity | discriminate]].
  injection Ea as <- <-. split; [reflexivity|].
  intros a E; injection E as <-. exists s, d. split; [exact Eo|]. split; [exact Ep|].
  split; [reflexivity|]. apply calculateAge_nonneg, (parseDateOfBirth_le dp now s d Ep).
Qed.

(** [byteToHex] is [byte.toString(16).padStart(2, "0")] on every byte. *)
Lemma byteToHex_padStart b :
  byteToHex b = padStart (BigIntJS.toString16 (Z.of_N (Byte.to_N b))) 2 "0".
Proof. destruct b; vm_compute; reflexivity. Qed.

(** X14: calculateAge is not negative for a date of birth not after today. *)
Theorem calculateAge_not_negative today dob :
  dob <= today -> 0 <= calculateAge today dob.
Proof. exact (calculateAge_nonneg today dob). Qed.

(* ------------------------------------------------------------------ *)
(** ** Witnesses *)

Lemma grayscale_pixel_witness :
  nth_error (applyGrayscale [10; 20; 31; 255]) 0 = Some 20 /\
  nth_error (applyGrayscale [10; 20; 31; 255]) 1 = Some 20 /\
  nth_error (applyGrayscale [10; 20; 31; 255]) 2 = Some 20 /\
  nth_error (applyGrayscale [10; 20; 31; 255]) 3 = Some 255.
Proof.
  exact (grayscale_pixel [10; 20; 31; 255] 0 10 20 31 eq_refl eq_refl eq_refl
           ltac:(lia) ltac:(lia) ltac:(lia)).
Defined.

Lemma binarize_bitonal_witness :
  nth_error (applyBinarize [0; 0; 0; 255; 255; 255; 255; 9]) 7 = Some 9 /\
  (forall v, nth_error (applyBinarize [0; 0; 0; 255; 255; 255; 255; 9]) 4 = Some v ->
     v = 0 \/ v = 255).
Proof.
  destruct (binarize_bitonal [0; 0; 0; 255; 255; 255; 255; 9] 7) as (_ & H7 & _).
  destruct (binarize_bitonal [0; 0; 0; 255; 255; 255; 255; 9] 4) as (_ & _ & H4).
  split; [exact (H7 eq_refl) | exact (H4 ltac:(cbn; lia))].
Defined.

Lemma binarize_pixel_witness :
  nth_error (applyBinarize [0; 0; 0; 255; 255; 255; 255; 9; 100; 100; 100; 1]) 8 = Some 0 /\
  nth_error (applyBinarize [0; 0; 0; 255; 255; 255; 255; 9; 100; 100; 100; 1]) 9 = Some 0 /\
  nth_error (applyBinarize [0; 0; 0; 255; 255; 255; 255; 9; 100; 100; 100; 1]) 10 = Some 0 /\
  nth_error (applyBinarize [0; 0; 0; 255; 255; 255; 255; 9; 100; 100; 100; 1]) 11 = Some 1.
Proof.
  exact (binarize_pixel [0; 0; 0; 255; 255; 255; 255; 9; 100; 100; 100; 1] 3 2 eq_refl
           ltac:(repeat (apply Forall_cons; [lia|]); apply Forall_nil) ltac:(lia)).
Defined.

Lemma binarize_not_all_black_witness :
  exists k, (k < 2)%nat /\
    nth_error (applyBinarize [0; 0; 0; 255; 0; 0; 0; 255]) (4 * k) = Some 255 /\
    nth_error (applyBinarize [0; 0; 0; 255; 0; 0; 0; 255]) (4 * k + 1) = Some 255 /\
    nth_error (applyBinarize [0; 0; 0; 255; 0; 0; 0; 255]) (4 * k + 2) = Some 255.
Proof.
  exact (binarize_not_all_black [0; 0; 0; 255; 0; 0; 0; 255] 2 eq_refl
           ltac:(repeat (apply Forall_cons; [lia|]); apply Forall_nil) ltac:(lia)).
Defined.

Lemma sharpen_border_witness :
  List.length (applySharpen 3 3 (map Z.of_nat (seq 0 36))) = 36%nat /\
  nth_error (applySharpen 3 3 (map Z.of_nat (seq 0 36))) 12 = Some 12.
Proof.
  exact (sharpen_border 3 3 (map Z.of_nat (seq 0 36)) 0 1 0 ltac:(lia) ltac:(lia) ltac:(lia)).
Defined.

Lemma sharpen_interior_witness :
  nth_error (applySharpen 3 3 [0; 0; 0; 0; 0; 0; 0; 0; 0; 0; 0; 0;
                               0; 0; 0; 0; 200; 100; 30; 7; 0; 0; 0; 0;
                               0; 0; 0; 0; 90; 90; 90; 0; 0; 0; 0; 0]) 18 = Some 60.
Proof.
  exact (sharpen_interior 3 3 [0; 0; 0; 0; 0; 0; 0; 0; 0; 0; 0; 0;
                               0; 0; 0; 0; 200; 100; 30; 7; 0; 0; 0; 0;
                               0; 0; 0; 0; 90; 90; 90; 0; 0; 0; 0; 0] 1 1 2
           eq_refl ltac:(lia) ltac:(lia) ltac:(lia)).
Defined.

Lemma sharpen_uniform_witness : applySharpen 3 3 (repeat 50 36) = repeat 50 36.
Proof.
  exact (sharpen_uniform 3 3 (repeat 50 36) 50 eq_refl
           (proj2 (Forall_forall _ _) (fun u Hu => repeat_spec 36 50 u Hu)) ltac:(lia)).
Defined.

Lemma record_age_witness :
  let now := match DateJS.new_Date_ymd 2024 5 14 with Some t => t | None => 0 end in
  let buf := (list_byte_of_string "0" ++ [xff] ++ list_byte_of_string "R" ++ [xff] ++
              list_byte_of_string "N" ++ [xff] ++ list_byte_of_string "15/06/2000" ++ [xff] ++
              repeat x00 256)%list in
  exists r, extractDataFields no_date now buf = Some r /\
    age r = Some 23 /\ isAdult r = Some true /\
    exists s dob, dateOfBirth r = Some s /\ parseDateOfBirth no_date now s = Some dob.
Proof.
  intros now buf.
  destruct (extractDataFields no_date now buf) as [r|] eqn:E; [|vm_compute in E; discriminate E].
  exists r. split; [reflexivity|].
  destruct (record_age no_date now buf r E) as [Ha Hs].
  assert (Hr : age r = Some 23) by (vm_compute in E; injection E as <-; reflexivity).
  split; [exact Hr|]. split; [rewrite Ha, Hr; reflexivity|].
  destruct (Hs 23 Hr) as (s & dob & H1 & H2 & _). exists s, dob. split; assumption.
Defined.

Lemma calculateAge_not_negative_witness :
  let dob := match DateJS.new_Date_ymd 2000 5 15 with Some t => t | None => 0 end in
  let today := match DateJS.new_Date_ymd 2024 5 14 with Some t => t | None => 0 end in
  0 <= calculateAge today dob.
Proof.
  intros dob today. apply calculateAge_not_negative. vm_compute. discriminate.
Defined.
